(** * The Jenkins node: execution loop, request building and credential test

    A shallow embedding of [packages/nodes-base/nodes/Jenkins/Jenkins.node.ts]:
    the [execute] method (per-item loop, dispatch on resource and operation,
    response flattening, continue-on-fail) and the [buildsGetApiTest]
    credential test.

    The node talks to its host through [this]: [getInputData],
    [getNodeParameter], [getCredentials], [continueOnFail], [helpers.request],
    [helpers.returnJsonArray]; to [jenkinsApiRequest] of [GenericFunctions] and
    to [parseString] of xml2js.  These are the fields of [Host].  Calls that
    reach the outside (HTTP) thread a world [W]; every host call the
    properties below talk about is recorded in a trace. *)

From Stdlib Require Import ZArith String Ascii List Lia Bool.
From stdpp Require Import gmap strings list fin_maps.

Local Set Warnings "-register-all".
Local Open Scope string_scope.
Local Open Scope list_scope.

(** ** Values *)

(** A JavaScript number: not-a-number, an infinity, the negative zero, or
    the finite double [m * 2^e]. *)
Inductive number : Type :=
| NaN
| Infinity (negative : bool)
| NegativeZero
| Finite (m e : Z).

(** The number of an integer. *)
Definition Int (z : Z) : number := Finite z 0.

(** A number in a condition: 0, -0 and NaN are falsy. *)
Definition truthy (n : number) : bool :=
  match n with
  | NaN => false
  | Infinity _ => true
  | NegativeZero => false
  | Finite m _ => negb (m =? 0)%Z
  end.

(** JavaScript values as far as the node inspects them: the node tells
    [undefined] from the rest, arrays from non-arrays ([Array.isArray]) and
    builds object literals.  An object is a finite map from property names. *)
Inductive value : Type :=
| VUndefined
| VBool (b : bool)
| VNumber (n : number)
| VString (s : string)
| VArray (xs : list value)
| VObject (fields : gmap string value).

Definition isArray (v : value) : bool :=
  match v with
  | VArray _ => true
  | _ => false
  end.

(** The empty object literal [{}]. *)
Definition empty_object : value := VObject ∅.

(** A thrown error; the node only ever reads [error.message]. *)
Record Error := mkError { message : string }.

(** [JenkinsApiCredentials]. *)
Record JenkinsApiCredentials := mkCredentials {
  username : string;
  apiKey : string;
  baseUrl : string;
}.

(** One entry of the [param.params] fixed collection. *)
Record param := mkParam {
  param_name : string;
  param_value : string;
}.

(** The [filters] collection of build:getAll; every option may be left
    unset. *)
Record filters := mkFilters {
  filters_depth : option number;
  filters_tree : option string;
  filters_xpath : option string;
  filters_exclude : option string;
}.

(** The positional arguments of [jenkinsApiRequest.call(this, method, uri,
    qs, headers, body)], named as the call sites name them.  An argument that
    is not passed is [VUndefined]. *)
Record api_call := mkCall {
  call_method : string;
  call_uri : string;
  call_qs : value;
  call_headers : value;
  call_body : value;
}.

(** The [options] object handed to [this.helpers.request] by the credential
    test. *)
Record request_options := mkOptions {
  opt_headers : value;
  opt_method : string;
  opt_body : value;
  opt_qs : value;
  opt_uri : string;
  opt_json : bool;
}.

(** [NodeCredentialTestResult]. *)
Record NodeCredentialTestResult := mkTestResult {
  status : string;
  result_message : string;
}.

(** Host calls, in the order they are made. *)
Inductive event : Type :=
| EvGetNodeParameter (name : string) (itemIndex : nat)
| EvGetCredentials (name : string)
| EvApiRequest (c : api_call)
| EvParseString (xml : value) (explicitArray : bool)
| EvRequest (o : request_options).

(** ** String helpers *)

(** [undefined] for an unset optional string, the string otherwise. *)
Definition of_optional_string (o : option string) : value :=
  match o with
  | Some s => VString s
  | None => VUndefined
  end.

(** Modelled from the spec: [tolerateTrailingSlash] of [GenericFunctions],
    imported by the node but defined outside the file embedded here.  The
    spec has the adapter normalise the trailing slash of the base URL, so
    that a base URL written with a trailing slash gives the same request URI
    as the one written without: a final ["/"] is dropped, any other string is
    returned as is. *)
Fixpoint tolerateTrailingSlash (baseUrl : string) : string :=
  match baseUrl with
  | EmptyString => EmptyString
  | String c EmptyString =>
      if Ascii.eqb c "/"%char then EmptyString else String c EmptyString
  | String c rest => String c (tolerateTrailingSlash rest)
  end.

(** *** Base64 ([Buffer.from(s).toString('base64')])

    A string is taken as the sequence of its UTF-8 bytes. *)
Definition base64_alphabet : list ascii :=
  list_ascii_of_string
    "ABCDEFGHIJKLMNOPQRSTUVWXYZabcdefghijklmnopqrstuvwxyz0123456789+/".

Definition base64_digit (n : N) : ascii :=
  nth (N.to_nat n) base64_alphabet "="%char.

Fixpoint base64_bytes (bytes : list N) : string :=
  match bytes with
  | [] => EmptyString
  | [a] =>
      String (base64_digit (N.shiftr a 2))
        (String (base64_digit (N.shiftl (N.land a 3) 4)) "==")
  | [a; b] =>
      String (base64_digit (N.shiftr a 2))
        (String (base64_digit (N.lor (N.shiftl (N.land a 3) 4) (N.shiftr b 4)))
           (String (base64_digit (N.shiftl (N.land b 15) 2)) "="))
  | a :: b :: c :: rest =>
      String (base64_digit (N.shiftr a 2))
        (String (base64_digit (N.lor (N.shiftl (N.land a 3) 4) (N.shiftr b 4)))
           (String (base64_digit (N.lor (N.shiftl (N.land b 15) 2) (N.shiftr c 6)))
              (String (base64_digit (N.land c 63)) (base64_bytes rest))))
  end.

Definition base64 (s : string) : string :=
  base64_bytes (map N_of_ascii (list_ascii_of_string s)).

(** ** The triggerParams body *)

(** [body[name] = value] on an object made by [{}], for a string value: the
    object gets or changes its own property [name], except under the name
    __proto__, which is an accessor of the prototype whose setter ignores a
    string and leaves the object as it is. *)
Definition assign (body : gmap string value) (name v : string)
  : gmap string value :=
  if name =? "__proto__" then body else <[name := VString v]> body.

(** [params.reduce((body, param) => { body[param.name] = param.value; return
    body; }, {})]: a left fold that makes one assignment per entry. *)
Definition reduce_params (params : list param) : gmap string value :=
  foldl (λ body p, assign body (param_name p) (param_value p)) ∅ params.

(** [let body = {}; if (params.length) { body = params.reduce(...) }]. *)
Definition params_body (params : list param) : value :=
  match params with
  | [] => empty_object
  | _ => VObject (reduce_params params)
  end.

(** ** The host and the effects of a run *)

Section Node.

Context {W : Type}.

(** What [this], the imported helpers and the runtime provide.  Parameters
    come typed as the node description declares them: string fields, the
    [param.params] list (default [[]]) and the [filters] collection.
    Resolving a parameter or the credentials may throw.  [apply_overflow n] is
    the RangeError with which the engine refuses a call through
    [Function.prototype.apply] with [n] arguments, when they are too many for
    it. *)
Record Host := mkHost {
  getInputData : list value;
  getNodeParameter_string : string → nat → Error + string;
  getNodeParameter_params : nat → Error + list param;
  getNodeParameter_filters : nat → Error + filters;
  getCredentials : string → Error + JenkinsApiCredentials;
  continueOnFail : bool;
  jenkinsApiRequest : api_call → W → (Error + value) * W;
  parseString : value → bool → Error + value;
  helpers_request : request_options → W → (Error + value) * W;
  helpers_returnJsonArray : list value → list value;
  apply_overflow : nat → option Error;
}.

(** The store of a run: the outside world, the trace of host calls and the
    local variables of the method ([L]). *)
Record store (L : Type) := mkStore {
  world : W;
  trace : list event;
  locals : L;
}.
Global Arguments mkStore {L} _ _ _.
Global Arguments world {L} _.
Global Arguments trace {L} _.
Global Arguments locals {L} _.

(** A computation that may throw and may change the store; what was written
    before a throw stays written. *)
Definition M (L A : Type) : Type := store L → (Error + A) * store L.

Definition throw {L A} (e : Error) : M L A := λ s, (inl e, s).

Definition try_catch {L A} (body : M L A) (handler : Error → M L A) : M L A :=
  λ s, match body s with
       | (inl e, s') => handler e s'
       | (inr a, s') => (inr a, s')
       end.

Global Instance M_ret {L} : MRet (M L) := λ A a s, (inr a, s).

Global Instance M_bind {L} : MBind (M L) := λ A B k m s,
  match m s with
  | (inl e, s') => (inl e, s')
  | (inr a, s') => k a s'
  end.

Definition when {L} (c : bool) (m : M L unit) : M L unit :=
  if c then m else mret tt.

Definition log {L} (e : event) : M L unit :=
  λ s, (inr tt, mkStore (world s) (trace s ++ [e]) (locals s)).

Definition lift {L A} (r : Error + A) : M L A := λ s, (r, s).

Definition get_locals {L} : M L L := λ s, (inr (locals s), s).

Definition set_locals {L} (l : L) : M L unit :=
  λ s, (inr tt, mkStore (world s) (trace s) l).

Definition outside {L A} (f : W → (Error + A) * W) : M L A :=
  λ s, let (r, w) := f (world s) in (r, mkStore w (trace s) (locals s)).

(** The local variables of [execute] that the loop changes. *)
Record exec_locals := mkLocals {
  returnData : list value;
  responseData : value;
}.

Local Abbreviation X := (M exec_locals).

Variable h : Host.

(** *** Host calls *)

Definition getNodeParameter {L} (name : string) (i : nat) : M L string :=
  log (EvGetNodeParameter name i);; lift (getNodeParameter_string h name i).

Definition getParams {L} (i : nat) : M L (list param) :=
  log (EvGetNodeParameter "param.params" i);; lift (getNodeParameter_params h i).

Definition getFilters {L} (i : nat) : M L filters :=
  log (EvGetNodeParameter "filters" i);; lift (getNodeParameter_filters h i).

Definition getCredentialsOf {L} (name : string) : M L JenkinsApiCredentials :=
  log (EvGetCredentials name);; lift (getCredentials h name).

Definition apiRequest {L} (method uri : string) (qs headers body : value)
  : M L value :=
  let c := mkCall method uri qs headers body in
  log (EvApiRequest c);; outside (jenkinsApiRequest h c).

(** [new Promise((resolve, reject) => parseString(response, { explicitArray:
    false }, (err, data) => { if (err) return reject(err); resolve(data); }))],
    awaited. *)
Definition parseXml {L} (response : value) : M L value :=
  log (EvParseString response false);; lift (parseString h response false).

(** *** Assignments to the locals *)

Definition set_responseData (v : value) : X unit :=
  l ← get_locals; set_locals (mkLocals (returnData l) v).

(** [returnData.push(v)]. *)
Definition push (v : value) : X unit :=
  l ← get_locals; set_locals (mkLocals (returnData l ++ [v]) (responseData l)).

(** [returnData.push.apply(returnData, vs)]: every element of [vs] is an
    argument of the call, which the engine may refuse. *)
Definition push_apply (vs : list value) : X unit :=
  match apply_overflow h (length vs) with
  | Some e => throw e
  | None =>
      l ← get_locals;
      set_locals (mkLocals (returnData l ++ vs) (responseData l))
  end.

(** *** The body of the loop *)

(** The three resource blocks of the [try], each a run of independent [if]s
    on the operation. *)
Definition job_block (operation burl : string) (i : nat) : X unit :=
  when (operation =? "trigger") (
    token ← getNodeParameter "token" i;
    job ← getNodeParameter "job" i;
    let endpoint := burl +:+ "/job/" +:+ job +:+ "/build?token=" +:+ token in
    r ← apiRequest "get" endpoint VUndefined VUndefined VUndefined;
    set_responseData r);;
  when (operation =? "triggerParams") (
    token ← getNodeParameter "token" i;
    job ← getNodeParameter "job" i;
    params ← getParams i;
    let body := params_body params in
    let endpoint :=
      burl +:+ "/job/" +:+ job +:+ "/buildWithParameters?token=" +:+ token in
    r ← apiRequest "get" endpoint empty_object empty_object
          (VObject {[ "data" := body ]});
    set_responseData r);;
  when (operation =? "copy") (
    job ← getNodeParameter "job" i;
    name ← getNodeParameter "newJob" i;
    let queryParams :=
      VObject (<["name" := VString name]>
              (<["mode" := VString "copy"]>
              (<["from" := VString job]> ∅))) in
    let endpoint := burl +:+ "/createItem" in
    r ← apiRequest "post" endpoint queryParams VUndefined VUndefined;
    set_responseData r);;
  when (operation =? "create") (
    name ← getNodeParameter "newJob" i;
    let queryParams := VObject {[ "name" := VString name ]} in
    let headers := VObject {[ "content-type" := VString "application/xml" ]} in
    body ← getNodeParameter "xml" i;
    let endpoint := burl +:+ "/createItem" in
    r ← apiRequest "post" endpoint queryParams headers (VString body);
    set_responseData r).

Definition instance_block (operation burl : string) (i : nat) : X unit :=
  when (operation =? "quietDown") (
    reason ← getNodeParameter "reason" i;
    let queryParams :=
      if (reason =? "") then VUndefined
      else VObject {[ "reason" := VString reason ]} in
    let endpoint := burl +:+ "/quietDown" in
    r ← apiRequest "post" endpoint queryParams VUndefined VUndefined;
    set_responseData r);;
  when (operation =? "cancelQuietDown") (
    let endpoint := burl +:+ "/cancelQuietDown" in
    r ← apiRequest "post" endpoint VUndefined VUndefined VUndefined;
    set_responseData r);;
  when (operation =? "restart") (
    let endpoint := burl +:+ "/restart" in
    r ← apiRequest "post" endpoint VUndefined VUndefined VUndefined;
    set_responseData r);;
  when (operation =? "safeRestart") (
    let endpoint := burl +:+ "/safeRestart" in
    r ← apiRequest "post" endpoint VUndefined VUndefined VUndefined;
    set_responseData r);;
  when (operation =? "exit") (
    let endpoint := burl +:+ "/exit" in
    r ← apiRequest "post" endpoint VUndefined VUndefined VUndefined;
    set_responseData r);;
  when (operation =? "safeExit") (
    let endpoint := burl +:+ "/safeExit" in
    r ← apiRequest "post" endpoint VUndefined VUndefined VUndefined;
    set_responseData r).

(** [depth ? depth : 1]: an unset depth is falsy, and so are the numbers 0,
    -0 and NaN. *)
Definition effective_depth (depth : option number) : number :=
  match depth with
  | Some d => if truthy d then d else Int 1
  | None => Int 1
  end.

Definition build_block (operation burl : string) (i : nat) : X unit :=
  when (operation =? "build:getAll") (
    let endpoint := burl +:+ "/api/xml" in
    f ← getFilters i;
    let tree := of_optional_string (filters_tree f) in
    let xpath := of_optional_string (filters_xpath f) in
    let exclude := of_optional_string (filters_exclude f) in
    let depth := filters_depth f in
    let queryParams :=
      VObject (<["depth" := VNumber (effective_depth depth)]>
              (<["tree" := tree]>
              (<["xpath" := xpath]>
              (<["exclude" := exclude]> ∅)))) in
    response ← apiRequest "get" endpoint queryParams VUndefined VUndefined;
    data ← parseXml response;
    set_responseData data).

(** [if (Array.isArray(responseData)) returnData.push.apply(returnData,
    responseData) else returnData.push(responseData)]. *)
Definition push_response : X unit :=
  l ← get_locals;
  match responseData l with
  | VArray xs => push_apply xs
  | v => push v
  end.

(** The statements inside [try]: the credentials and the dispatch on the
    resource, then the push of [responseData]. *)
Definition dispatch (resource operation burl : string) (i : nat) : X unit :=
  when (resource =? "job") (job_block operation burl i);;
  when (resource =? "instance") (instance_block operation burl i);;
  when (resource =? "build") (build_block operation burl i).

Definition fetch_response (resource operation : string) (i : nat) : X unit :=
  credentials ← getCredentialsOf "JenkinsApi";
  let burl := baseUrl credentials in
  dispatch resource operation burl i.

Definition item_body (resource operation : string) (i : nat) : X unit :=
  fetch_response resource operation i;;
  push_response.

(** [{ error: error.message }]. *)
Definition error_item (e : Error) : value :=
  VObject {[ "error" := VString (message e) ]}.

(** The [catch] clause: push the error item and go on, or rethrow. *)
Definition on_error (e : Error) : X unit :=
  if continueOnFail h then push (error_item e) else throw e.

(** [for (let i = 0; i < length; i++) { try { ... } catch (error) { ... } }],
    entered at index [i] with [n] items left. *)
Fixpoint for_loop (resource operation : string) (n i : nat) : X unit :=
  match n with
  | O => mret tt
  | S n' =>
      try_catch (item_body resource operation i) on_error;;
      for_loop resource operation n' (S i)
  end.

(** [execute]; the method returns one output, [[returnJsonArray(returnData)]],
    or throws. *)
Definition execute : X (list (list value)) :=
  let items := getInputData h in
  let length := length items in
  resource ← getNodeParameter "resource" 0;
  operation ← getNodeParameter "operation" 0;
  for_loop resource operation length 0;;
  l ← get_locals;
  mret [helpers_returnJsonArray h (returnData l)].

(** The store [execute] starts from: [returnData = []], [responseData]
    declared and not assigned. *)
Definition initial (w : W) : store exec_locals :=
  mkStore w [] (mkLocals [] VUndefined).

(** *** The credential test *)

Definition test_options (credential : JenkinsApiCredentials) : request_options :=
  let token := base64 (username credential +:+ ":" +:+ apiKey credential) in
  let url := tolerateTrailingSlash (baseUrl credential) in
  let endpoint := "/api/xml" in
  mkOptions
    (VObject {[ "Authorization" := VString ("Basic " +:+ token) ]})
    "GET"
    empty_object
    empty_object
    (url +:+ endpoint)
    true.

Definition buildsGetApiTest (credential : JenkinsApiCredentials)
  : M unit NodeCredentialTestResult :=
  let options := test_options credential in
  try_catch
    (log (EvRequest options);;
     outside (helpers_request h options);;
     mret (mkTestResult "OK" "Authentication successful"))
    (λ error, mret (mkTestResult "Error" (message error))).

End Node.

Global Arguments Host : clear implicits.
Global Arguments store : clear implicits.
Global Arguments M : clear implicits.

(** ** Reading a trace *)



(** The [jenkinsApiRequest] calls of a trace, in order. *)
Fixpoint api_calls (tr : list event) : list api_call :=
  match tr with
  | [] => []
  | EvApiRequest c :: tr' => c :: api_calls tr'
  | _ :: tr' => api_calls tr'
  end.

(** The [parseString] calls of a trace: the text and the [explicitArray]
    option. *)
Fixpoint parse_calls (tr : list event) : list (value * bool) :=
  match tr with
  | [] => []
  | EvParseString xml ea :: tr' => (xml, ea) :: parse_calls tr'
  | _ :: tr' => parse_calls tr'
  end.

(** The parameters the loop body reads, each at the index of its item. *)
Definition item_parameters : list string :=
  ["token"; "job"; "param.params"; "newJob"; "xml"; "reason"; "filters"].

(** The host calls the dispatch of one item can make. *)
Definition item_event (e : event) : bool :=
  match e with
  | EvGetNodeParameter n _ => existsb (String.eqb n) item_parameters
  | EvApiRequest _ => true
  | EvParseString _ _ => true
  | _ => false
  end.

(** What one response adds to the output: its elements when it is an array,
    itself otherwise. *)
Definition response_items (v : value) : list value :=
  match v with
  | VArray xs => xs
  | _ => [v]
  end.

(** The conditions under which some branch of the dispatch runs. *)
Definition matches_branch (resource operation : string) : bool :=
  (resource =? "job") &&
    ((operation =? "trigger") || (operation =? "triggerParams")
     || (operation =? "copy") || (operation =? "create"))
  || (resource =? "instance") &&
    ((operation =? "quietDown") || (operation =? "cancelQuietDown")
     || (operation =? "restart") || (operation =? "safeRestart")
     || (operation =? "exit") || (operation =? "safeExit"))
  || (resource =? "build") && (operation =? "build:getAll").

(** The query object the build:getAll branch builds from the filters. *)
Definition getAll_query (f : filters) : value :=
  VObject (<["depth" := VNumber (effective_depth (filters_depth f))]>
          (<["tree" := of_optional_string (filters_tree f)]>
          (<["xpath" := of_optional_string (filters_xpath f)]>
          (<["exclude" := of_optional_string (filters_exclude f)]> ∅)))).

Definition instance_operations : list string :=
  ["quietDown"; "cancelQuietDown"; "restart"; "safeRestart"; "exit"; "safeExit"].

(** The value a left-to-right fold into a mapping leaves under [name]: that
    of the last entry with this name. *)
Fixpoint last_value (name : string) (params : list param) : option string :=
  match params with
  | [] => None
  | p :: rest =>
      match last_value name rest with
      | Some v => Some v
      | None => if param_name p =? name then Some (param_value p) else None
      end
  end.

(** ** Sample hosts

    Hosts over a world that counts the HTTP calls answered so far; the
    transport decides its answer from that count. *)

Definition sample_parameter (resource operation reason name : string) : string :=
  if name =? "resource" then resource
  else if name =? "operation" then operation
  else if name =? "reason" then reason
  else if name =? "job" then "nightly"
  else if name =? "token" then "s3cr3t"
  else if name =? "newJob" then "nightly-copy"
  else "<project/>".

Definition sample_params : list param :=
  [mkParam "branch" "main"; mkParam "target" "x86"; mkParam "branch" "dev"].

Definition sample_filters : filters :=
  mkFilters None (Some "jobs[name]") None None.

(** An engine that takes up to 100000 arguments in one call. *)
Definition sample_overflow (n : nat) : option Error :=
  if (N.of_nat n <=? 100000)%N then None
  else Some (mkError "Maximum call stack size exceeded").

Definition sample_host_of (params : list param) (f : filters)
    (items : nat) (tolerant : bool)
    (burl resource operation reason : string)
    (answer : nat → Error + value) (parse : value → Error + value) : Host nat :=
  mkHost
    (replicate items (VObject ∅))
    (λ name _, inr (sample_parameter resource operation reason name))
    (λ _, inr params)
    (λ _, inr f)
    (λ _, inr (mkCredentials "admin" "11aa" burl))
    tolerant
    (λ _ n, (answer n, S n))
    (λ xml _, parse xml)
    (λ _ n, (answer n, S n))
    (λ l, l)
    sample_overflow.

Definition sample_host : nat → bool → string → string → string → string →
    (nat → Error + value) → (value → Error + value) → Host nat :=
  sample_host_of sample_params sample_filters.

(** A transport whose second call fails. *)
Definition second_call_fails (first : value) (n : nat) : Error + value :=
  match n with
  | 0 => inr first
  | 1 => inl (mkError "connect ECONNREFUSED")
  | _ => inr (VString "ok")
  end.

Definition always_ok (n : nat) : Error + value := inr (VString "ok").

Definition parse_ok (xml : value) : Error + value :=
  inr (VObject {[ "hudson" := xml ]}).

Definition parse_fails (xml : value) : Error + value :=
  inl (mkError "Unclosed root tag").

(** ** Relations between the store before and after a computation *)

Section Relations.

Context {W : Type}.

(** [m] moves every store to one related to it, whether it returns or
    throws. *)
Definition respects {L A} (R : relation (store W L)) (m : M W L A) : Prop :=
  ∀ s, R s (m s).2.

Definition keeps_returnData : relation (store W exec_locals) :=
  λ s s', returnData (locals s') = returnData (locals s).


End Relations.

(** ** The node description

    The [properties] and [credentials] of [description], without the texts
    shown to the user: for every property its name, type, the [show] lists of
    its [displayOptions], whether it is required (absent counts as false),
    its default, and what it offers: the values of an options property, the
    fields of a collection, the named groups of fields of a fixed
    collection. *)

Record sub_field := mkField {
  field_name : string;
  field_type : string;
  field_default : value;
}.

Inductive property_kind : Type :=
| Plain
| Choices (values : list string)
| Fields (fields : list sub_field)
| Groups (groups : list (string * list sub_field)).

Record node_property := mkProperty {
  property_name : string;
  property_type : string;
  property_show : list (string * list string);
  property_required : bool;
  property_default : value;
  property_options : property_kind;
}.

Record credential_description := mkCredentialDescription {
  credential_name : string;
  credential_required : bool;
  testedBy : string;
  credential_hide : list (string * list string);
}.

Definition description_credentials : list credential_description :=
  [mkCredentialDescription "JenkinsApi" true "buildsGetApiTest"
     [("operation", ["trigger"; "triggerParams"])]].

Definition description_properties : list node_property :=
  [ mkProperty "resource" "options" [] false (VString "job")
      (Choices ["instance"; "job"; "build"]);
    mkProperty "operation" "options" [("resource", ["job"])] false
      (VString "trigger")
      (Choices ["trigger"; "triggerParams"; "copy"; "create"]);
    mkProperty "job" "string"
      [("resource", ["job"]); ("operation", ["trigger"; "triggerParams"; "copy"])]
      true (VString "") Plain;
    mkProperty "token" "string"
      [("resource", ["job"]); ("operation", ["trigger"; "triggerParams"])]
      true (VString "") Plain;
    mkProperty "param" "fixedCollection"
      [("resource", ["job"]); ("operation", ["triggerParams"])]
      true (VString "")
      (Groups [("params", [mkField "name" "string" (VString "");
                           mkField "value" "string" (VString "")])]);
    mkProperty "newJob" "string"
      [("resource", ["job"]); ("operation", ["copy"; "create"])]
      true (VString "") Plain;
    mkProperty "xml" "string"
      [("resource", ["job"]); ("operation", ["create"])]
      true (VString "") Plain;
    mkProperty "operation" "options" [("resource", ["instance"])] false
      (VString "safeRestart")
      (Choices ["cancelQuietDown"; "quietDown"; "restart"; "safeRestart";
                "safeExit"; "exit"]);
    mkProperty "reason" "string"
      [("resource", ["instance"]); ("operation", ["quietDown"])]
      false (VString "") Plain;
    mkProperty "operation" "options" [("resource", ["build"])] false
      (VString "build:getAll") (Choices ["build:getAll"]);
    mkProperty "filters" "collection"
      [("resource", ["build"]); ("operation", ["build:getAll"])]
      false empty_object
      (Fields [mkField "depth" "number" (VNumber (Int 1));
               mkField "tree" "string" (VString "");
               mkField "xpath" "string" (VString "");
               mkField "exclude" "string" (VString "")]) ].

(** Every list that [conds] gives for [key] contains [v]. *)
Definition allows (conds : list (string * list string)) (key v : string) : bool :=
  forallb (λ c, negb (c.1 =? key) || existsb (String.eqb v) c.2) conds.

(** The [show] lists of [p] contain the resource and the operation. *)
Definition show_lists (p : node_property) (resource operation : string) : bool :=
  allows (property_show p) "resource" resource
  && allows (property_show p) "operation" operation.

(** [name] is the name of [p], or the path [p.group] of one of its groups. *)
Definition declares (p : node_property) (name : string) : bool :=
  (property_name p =? name)
  || match property_options p with
     | Groups gs => existsb (λ g, (property_name p +:+ "." +:+ g.1) =? name) gs
     | _ => false
     end.

(** Some property declares [name] and lists the resource and operation. *)
Definition shown_for (resource operation name : string) : bool :=
  existsb (λ p, declares p name && show_lists p resource operation)
    description_properties.

Definition choices (p : node_property) : list string :=
  match property_options p with
  | Choices vs => vs
  | _ => []
  end.

(** The resources the description offers, each with the operations of the
    operation properties that list it. *)
Definition described_pairs : list (string * string) :=
  flat_map
    (λ r,
       flat_map
         (λ p, if (property_name p =? "operation")
                  && allows (property_show p) "resource" r
               then map (pair r) (choices p) else [])
         description_properties)
    (flat_map (λ p, if property_name p =? "resource" then choices p else [])
       description_properties).

(** ** The trace of one item *)

(** Parameter reads at index [i] of parameters shown for the resource and
    operation, then at most one request, then, only after a request, at most
    one parse with [explicitArray] false. *)
Fixpoint reads_then_call (resource operation : string) (i : nat)
    (tr : list event) : bool :=
  match tr with
  | [] => true
  | EvGetNodeParameter n j :: tr' =>
      (j =? i)%nat && shown_for resource operation n
      && reads_then_call resource operation i tr'
  | [EvApiRequest _] => true
  | [EvApiRequest _; EvParseString _ false] => true
  | _ => false
  end.

Definition item_trace_ok (resource operation : string) (i : nat)
    (tr : list event) : bool :=
  match tr with
  | EvGetCredentials name :: tr' =>
      (name =? "JenkinsApi") && reads_then_call resource operation i tr'
  | _ => false
  end.

(** [v] is a value the host hands back: the result of a
    [jenkinsApiRequest] call or of a [parseString] call. *)
Definition host_response {W} (h : Host W) (v : value) : Prop :=
  (∃ c w w', jenkinsApiRequest h c w = (inr v, w'))
  ∨ (∃ x, parseString h x false = inr v).

(** The request of the trigger branch for a job and a token. *)
Definition trigger_call (burl job token : string) : api_call :=
  mkCall "get" (burl +:+ "/job/" +:+ job +:+ "/build?token=" +:+ token)
    VUndefined VUndefined VUndefined.

(** The requests of the other branches. *)
Definition triggerParams_call (burl job token : string) (params : list param)
  : api_call :=
  mkCall "get"
    (burl +:+ "/job/" +:+ job +:+ "/buildWithParameters?token=" +:+ token)
    empty_object empty_object
    (VObject {[ "data" := VObject (reduce_params params) ]}).

Definition copy_call (burl job name : string) : api_call :=
  mkCall "post" (burl +:+ "/createItem")
    (VObject (<["name" := VString name]>
             (<["mode" := VString "copy"]>
             (<["from" := VString job]> ∅))))
    VUndefined VUndefined.

Definition create_call (burl name xml : string) : api_call :=
  mkCall "post" (burl +:+ "/createItem")
    (VObject {[ "name" := VString name ]})
    (VObject {[ "content-type" := VString "application/xml" ]})
    (VString xml).

Definition instance_call (burl operation reason : string) : api_call :=
  mkCall "post" (burl +:+ "/" +:+ operation)
    (if (operation =? "quietDown") && negb (reason =? "")
     then VObject {[ "reason" := VString reason ]}
     else VUndefined)
    VUndefined VUndefined.

Definition getAll_call (burl : string) (f : filters) : api_call :=
  mkCall "get" (burl +:+ "/api/xml") (getAll_query f) VUndefined VUndefined.

(** ** Sample hosts that fail to resolve *)

(** [h] with one parameter that cannot be resolved. *)
Definition without_parameter {W} (missing : string) (h : Host W) : Host W :=
  mkHost
    (getInputData h)
    (λ name i, if name =? missing
               then inl (mkError ("Could not get parameter " +:+ missing))
               else getNodeParameter_string h name i)
    (getNodeParameter_params h)
    (getNodeParameter_filters h)
    (getCredentials h)
    (continueOnFail h)
    (jenkinsApiRequest h)
    (parseString h)
    (helpers_request h)
    (helpers_returnJsonArray h)
    (apply_overflow h).

(** [h] without credentials. *)
Definition without_credentials {W} (h : Host W) : Host W :=
  mkHost
    (getInputData h)
    (getNodeParameter_string h)
    (getNodeParameter_params h)
    (getNodeParameter_filters h)
    (λ _, inl (mkError "Node does not have any credentials set!"))
    (continueOnFail h)
    (jenkinsApiRequest h)
    (parseString h)
    (helpers_request h)
    (helpers_returnJsonArray h)
    (apply_overflow h).

(** A transport that always fails. *)
Definition always_fails (n : nat) : Error + value :=
  inl (mkError "connect ECONNREFUSED").

(** ** The push of a response and the outcome of a request *)

(** The error with which [push.apply] refuses the response, if it does: only
    an array is pushed through [apply]. *)
Definition overflow {W} (h : Host W) (v : value) : option Error :=
  match v with
  | VArray xs => apply_overflow h (length xs)
  | _ => None
  end.

(** The store and result in which a branch leaves the [try] block before
    the push, for the answer of its request: the error is thrown, or the
    answer is assigned to [responseData]. *)
Definition fetched {W} (s : store W exec_locals) (tr : list event)
    (answer : (Error + value) * W) : (Error + unit) * store W exec_locals :=
  match answer with
  | (inl e, w') => (inl e, mkStore w' tr (locals s))
  | (inr v, w') =>
      (inr tt, mkStore w' tr (mkLocals (returnData (locals s)) v))
  end.

(** What one request leaves to an item that is allowed to fail: the world
    after the call, and the items appended for its answer, which is the
    error of the call, the answer itself, or the error of [push.apply] when
    the answer is an array it refuses. *)
Definition request_outcome {W} (h : Host W) (st : W * list value)
    (call : api_call) : W * list value :=
  match jenkinsApiRequest h call st.1 with
  | (inl e, w') => (w', st.2 ++ [error_item e])
  | (inr v, w') =>
      (w', st.2 ++ match overflow h v with
                   | Some e => [error_item e]
                   | None => response_items v
                   end)
  end.

(** * Properties *)

(** ** Running computations *)

Section Frame.

Context {W L : Type}.
Variable R : relation (store W L).
Hypothesis R_refl : ∀ s, R s s.
Hypothesis R_trans : ∀ s1 s2 s3, R s1 s2 → R s2 s3 → R s1 s3.

Lemma respects_ret {A} (a : A) : respects R (mret a).
Proof. intros s. apply R_refl. Qed.

Lemma respects_throw {A} (e : Error) : respects R (throw (A:=A) e).
Proof. intros s. apply R_refl. Qed.

Lemma respects_lift {A} (r : Error + A) : respects R (lift r).
Proof. intros s. apply R_refl. Qed.

Lemma respects_get_locals : respects R get_locals.
Proof. intros s. apply R_refl. Qed.

Lemma respects_bind {A B} (m : M W L A) (k : A → M W L B) :
  respects R m → (∀ a, respects R (k a)) → respects R (m ≫= k).
Proof.
  intros Hm Hk s. specialize (Hm s).
  unfold mbind, M_bind. destruct (m s) as [[e|a] s']; simpl in *.
  - exact Hm.
  - eapply R_trans; [exact Hm | apply Hk].
Qed.

Lemma respects_when (c : bool) (m : M W L unit) :
  respects R m → respects R (when c m).
Proof. intros Hm. destruct c; simpl; [exact Hm | apply respects_ret]. Qed.

Lemma respects_try_catch {A} (m : M W L A) (handler : Error → M W L A) :
  respects R m → (∀ e, respects R (handler e)) →
  respects R (try_catch m handler).
Proof.
  intros Hm Hh s. specialize (Hm s).
  unfold try_catch. destruct (m s) as [[e|a] s']; simpl in *.
  - eapply R_trans; [exact Hm | apply Hh].
  - exact Hm.
Qed.

End Frame.

(** The dispatch of one item only logs item events, calls out and assigns
    [responseData]; a relation closed under these three is respected by it. *)
Section DispatchFrame.

Context {W : Type} (h : Host W).
Variable R : relation (store W exec_locals).
Hypothesis R_refl : ∀ s, R s s.
Hypothesis R_trans : ∀ s1 s2 s3, R s1 s2 → R s2 s3 → R s1 s3.
Hypothesis R_log : ∀ e, item_event e = true → respects R (log e).
Hypothesis R_outside : ∀ A (f : W → (Error + A) * W), respects R (outside f).
Hypothesis R_assign : ∀ v, respects R (set_responseData v).

Ltac frame :=
  repeat first
    [ apply R_assign
    | apply R_outside
    | apply R_log; reflexivity
    | apply respects_lift; exact R_refl
    | apply respects_when; [exact R_refl | ]
    | apply respects_bind; [exact R_trans | | intros ?] ].

Lemma getNodeParameter_respects name i :
  item_event (EvGetNodeParameter name i) = true →
  respects R (getNodeParameter h (L:=exec_locals) name i).
Proof.
  intros Hn. unfold getNodeParameter.
  apply respects_bind; [exact R_trans | | intros ?].
  - apply R_log, Hn.
  - apply respects_lift, R_refl.
Qed.

Lemma apiRequest_respects method uri qs headers body :
  respects R (apiRequest h (L:=exec_locals) method uri qs headers body).
Proof. unfold apiRequest. frame. Qed.

Lemma job_block_respects operation burl i :
  respects R (job_block h operation burl i).
Proof.
  unfold job_block, getParams.
  repeat first
    [ apply getNodeParameter_respects; reflexivity
    | apply apiRequest_respects
    | progress frame ].
Qed.

Lemma instance_block_respects operation burl i :
  respects R (instance_block h operation burl i).
Proof.
  unfold instance_block.
  repeat first
    [ apply getNodeParameter_respects; reflexivity
    | apply apiRequest_respects
    | progress frame ].
Qed.

Lemma build_block_respects operation burl i :
  respects R (build_block h operation burl i).
Proof.
  unfold build_block, getFilters, parseXml.
  repeat first [ apply apiRequest_respects | progress frame ].
Qed.

Lemma dispatch_respects resource operation burl i :
  respects R (dispatch h resource operation burl i).
Proof.
  unfold dispatch.
  repeat first
    [ apply job_block_respects
    | apply instance_block_respects
    | apply build_block_respects
    | progress frame ].
Qed.

End DispatchFrame.

(** ** The loop body *)

Section Body.

Context {W : Type} (h : Host W).

Lemma keeps_returnData_refl (s : store W exec_locals) : keeps_returnData s s.
Proof. reflexivity. Qed.

Lemma keeps_returnData_trans (s1 s2 s3 : store W exec_locals) :
  keeps_returnData s1 s2 → keeps_returnData s2 s3 → keeps_returnData s1 s3.
Proof. unfold keeps_returnData. congruence. Qed.



Lemma dispatch_keeps_returnData resource operation burl i :
  respects keeps_returnData (dispatch h resource operation burl i).
Proof.
  apply dispatch_respects.
  - exact keeps_returnData_refl.
  - exact keeps_returnData_trans.
  - intros e _ s. reflexivity.
  - intros A f s. unfold outside, keeps_returnData.
    destruct (f (world s)). reflexivity.
  - intros v s. reflexivity.
Qed.



Lemma fetch_response_keeps_returnData resource operation i :
  respects keeps_returnData (fetch_response h resource operation i).
Proof.
  unfold fetch_response, getCredentialsOf.
  apply respects_bind; [exact keeps_returnData_trans | | intros c].
  - apply respects_bind; [exact keeps_returnData_trans | | intros ?];
      intros s; reflexivity.
  - apply dispatch_keeps_returnData.
Qed.

Lemma push_response_eq (s : store W exec_locals) :
  push_response h s =
    match overflow h (responseData (locals s)) with
    | Some e => (inl e, s)
    | None =>
        (inr tt,
         mkStore (world s) (trace s)
           (mkLocals
              (returnData (locals s)
               ++ response_items (responseData (locals s)))
              (responseData (locals s))))
    end.
Proof.
  unfold push_response, push, push_apply, mbind, M_bind, get_locals, set_locals,
    throw.
  simpl. destruct (responseData (locals s)) as [| | | |xs|] eqn:E; simpl;
    try (rewrite E; reflexivity).
  destruct (apply_overflow h (length xs)); simpl; [| rewrite E]; reflexivity.
Qed.

(** The push changes neither the world nor the trace, whatever it does. *)
Lemma push_response_frame (s : store W exec_locals) :
  world (push_response h s).2 = world s
  ∧ trace (push_response h s).2 = trace s
  ∧ responseData (locals (push_response h s).2) = responseData (locals s).
Proof.
  rewrite push_response_eq.
  destruct (overflow h (responseData (locals s))); repeat split.
Qed.

Lemma item_body_eq resource operation i (s : store W exec_locals) :
  item_body h resource operation i s =
    match fetch_response h resource operation i s with
    | (inl e, s') => (inl e, s')
    | (inr _, s') => push_response h s'
    end.
Proof. reflexivity. Qed.

(** An item that throws has appended nothing. *)
Lemma item_body_throw resource operation i (s s' : store W exec_locals) e :
  item_body h resource operation i s = (inl e, s') →
  returnData (locals s') = returnData (locals s).
Proof.
  rewrite item_body_eq. intros H.
  pose proof (fetch_response_keeps_returnData resource operation i s) as K.
  destruct (fetch_response h resource operation i s) as [[e1|u] s1].
  - inversion H; subst. exact K.
  - rewrite push_response_eq in H.
    destruct (overflow h (responseData (locals s1))); [| discriminate H].
    inversion H; subst. exact K.
Qed.

(** An item that completes has appended the items of the [responseData] it
    ends with. *)
Lemma item_body_return resource operation i (s s' : store W exec_locals) u :
  item_body h resource operation i s = (inr u, s') →
  returnData (locals s') =
    returnData (locals s) ++ response_items (responseData (locals s')).
Proof.
  rewrite item_body_eq. intros H.
  pose proof (fetch_response_keeps_returnData resource operation i s) as K.
  destruct (fetch_response h resource operation i s) as [[e1|u1] s1].
  - discriminate.
  - rewrite push_response_eq in H.
    destruct (overflow h (responseData (locals s1))); [discriminate H |].
    inversion H; subst. simpl.
    unfold keeps_returnData in K. simpl in K. rewrite K. reflexivity.
Qed.


End Body.

(** ** The loop *)

Section Loop.

Context {W : Type} (h : Host W).

Lemma for_loop_step resource operation n i (s s' : store W exec_locals) u :
  item_body h resource operation i s = (inr u, s') →
  for_loop h resource operation (S n) i s
    = for_loop h resource operation n (S i) s'.
Proof.
  intros H. simpl. unfold mbind, M_bind, try_catch. rewrite H. reflexivity.
Qed.

Lemma for_loop_abort resource operation n i (s s' : store W exec_locals) e :
  continueOnFail h = false →
  item_body h resource operation i s = (inl e, s') →
  for_loop h resource operation (S n) i s = (inl e, s').
Proof.
  intros Hc H. simpl. unfold mbind, M_bind, try_catch, on_error.
  rewrite H, Hc. reflexivity.
Qed.

Lemma for_loop_tolerate resource operation n i (s s' : store W exec_locals) e :
  continueOnFail h = true →
  item_body h resource operation i s = (inl e, s') →
  for_loop h resource operation (S n) i s
    = for_loop h resource operation n (S i) (push (error_item e) s').2.
Proof.
  intros Hc H. simpl. unfold mbind, M_bind, try_catch, on_error.
  rewrite H, Hc. reflexivity.
Qed.

Lemma execute_eq (w : W) resource operation :
  getNodeParameter_string h "resource" 0 = inr resource →
  getNodeParameter_string h "operation" 0 = inr operation →
  execute h (initial w) =
    match
      for_loop h resource operation (length (getInputData h)) 0
        (mkStore w
           [EvGetNodeParameter "resource" 0; EvGetNodeParameter "operation" 0]
           (mkLocals [] VUndefined))
    with
    | (inl e, s') => (inl e, s')
    | (inr _, s') =>
        (inr [helpers_returnJsonArray h (returnData (locals s'))], s')
    end.
Proof.
  intros Hr Ho.
  unfold execute, getNodeParameter, initial, mbind, M_bind, log, lift,
    get_locals, mret, M_ret.
  simpl. rewrite Hr. simpl. rewrite Ho. simpl.
  destruct (for_loop h resource operation _ _ _) as [[e|u] s']; reflexivity.
Qed.

End Loop.

(** ** Failure tolerance *)

Section Tolerance.

Context {W : Type} (h : Host W).

(** C1 (as amended).  An execution over three input items in which item 1
    and item 3 complete and item 2 throws [e].  With [continueOnFail] off,
    [execute] rethrows [e] and returns no output; it stops in the store in
    which item 2 threw, so item 3 is never started, and the output collection
    there holds what item 1 appended, one item when the response of item 1 is
    not an array.  With [continueOnFail] on, [execute] returns the items of
    item 1, then [{error: e.message}], then the items of item 3: three items
    with the error item second when neither response is an array.  In
    general, with tolerance off the first error ends the loop and leaves the
    collection as it stood before the failing item. *)
Theorem second_item_fails (w : W) resource operation
    (s1 s2 : store W exec_locals) (e : Error) :
  length (getInputData h) = 3 →
  getNodeParameter_string h "resource" 0 = inr resource →
  getNodeParameter_string h "operation" 0 = inr operation →
  item_body h resource operation 0
    (mkStore w
       [EvGetNodeParameter "resource" 0; EvGetNodeParameter "operation" 0]
       (mkLocals [] VUndefined)) = (inr tt, s1) →
  item_body h resource operation 1 s1 = (inl e, s2) →
  (continueOnFail h = false →
     execute h (initial w) = (inl e, s2)
     ∧ returnData (locals s2) = response_items (responseData (locals s1))
     ∧ (isArray (responseData (locals s1)) = false →
        returnData (locals s2) = [responseData (locals s1)]))
  ∧ (continueOnFail h = true →
     ∀ s3, item_body h resource operation 2 (push (error_item e) s2).2
             = (inr tt, s3) →
       execute h (initial w)
         = (inr [helpers_returnJsonArray h (returnData (locals s3))], s3)
       ∧ returnData (locals s3)
           = response_items (responseData (locals s1))
             ++ error_item e :: response_items (responseData (locals s3))
       ∧ (isArray (responseData (locals s1)) = false →
          isArray (responseData (locals s3)) = false →
          returnData (locals s3)
            = [responseData (locals s1); error_item e;
               responseData (locals s3)]))
  ∧ (∀ n i (s s' : store W exec_locals) e',
       continueOnFail h = false →
       item_body h resource operation i s = (inl e', s') →
       for_loop h resource operation (S n) i s = (inl e', s')
       ∧ returnData (locals s') = returnData (locals s)).
Proof.
  intros Hlen Hr Ho H1 H2.
  pose proof (item_body_return h _ _ _ _ _ _ H1) as R1. simpl in R1.
  pose proof (item_body_throw h _ _ _ _ _ _ H2) as R2.
  assert (Single : ∀ v, isArray v = false → response_items v = [v])
    by (intros v Hv; destruct v; simpl in *; congruence).
  split; [| split].
  - intros Hc.
    assert (E : execute h (initial w) = (inl e, s2)).
    { rewrite (execute_eq h w resource operation Hr Ho), Hlen.
      rewrite (for_loop_step h _ _ _ _ _ _ _ H1).
      rewrite (for_loop_abort h _ _ _ _ _ _ _ Hc H2). reflexivity. }
    split; [exact E | split].
    + rewrite R2. exact R1.
    + intros Ha. rewrite R2, R1. apply Single, Ha.
  - intros Hc s3 H3.
    pose proof (item_body_return h _ _ _ _ _ _ H3) as R3. simpl in R3.
    assert (E : returnData (locals s3)
                = response_items (responseData (locals s1))
                  ++ error_item e :: response_items (responseData (locals s3))).
    { rewrite R3, R2, R1. rewrite <- app_assoc. reflexivity. }
    split; [| split].
    + rewrite (execute_eq h w resource operation Hr Ho), Hlen.
      rewrite (for_loop_step h _ _ _ _ _ _ _ H1).
      rewrite (for_loop_tolerate h _ _ _ _ _ _ _ Hc H2).
      rewrite (for_loop_step h _ _ _ _ _ _ _ H3). reflexivity.
    + exact E.
    + intros Ha1 Ha3. rewrite E, (Single _ Ha1), (Single _ Ha3). reflexivity.
  - intros n i s s' e' Hc H. split.
    + apply (for_loop_abort h _ _ _ _ _ _ _ Hc H).
    + apply (item_body_throw h _ _ _ _ _ _ H).
Qed.

End Tolerance.

(** Three items over a transport whose second call fails.  With tolerance
    off the run ends with the error and one item in the collection; with
    tolerance on it returns three items, the error item second. *)
Lemma second_item_fails_witness :
  let off := sample_host 3 false "http://ci" "instance" "restart" ""
               (second_call_fails (VString "done")) parse_ok in
  let on := sample_host 3 true "http://ci" "instance" "restart" ""
              (second_call_fails (VString "done")) parse_ok in
  ((execute off (initial 0)).1 = inl (mkError "connect ECONNREFUSED")
   ∧ returnData (locals (execute off (initial 0)).2) = [VString "done"])
  ∧ (execute on (initial 0)).1
      = inr [[VString "done"; error_item (mkError "connect ECONNREFUSED");
              VString "ok"]].
Proof.
  intros off on.
  pose (e := mkError "connect ECONNREFUSED").
  pose (s0 := mkStore 0
                [EvGetNodeParameter "resource" 0;
                 EvGetNodeParameter "operation" 0]
                (mkLocals [] VUndefined)).
  split.
  - pose (s1 := (item_body off "instance" "restart" 0 s0).2).
    pose (s2 := (item_body off "instance" "restart" 1 s1).2).
    assert (Hlen : length (getInputData off) = 3) by reflexivity.
    assert (Hr : getNodeParameter_string off "resource" 0 = inr "instance")
      by reflexivity.
    assert (Ho : getNodeParameter_string off "operation" 0 = inr "restart")
      by reflexivity.
    assert (H1 : item_body off "instance" "restart" 0 s0 = (inr tt, s1))
      by (vm_compute; reflexivity).
    assert (H2 : item_body off "instance" "restart" 1 s1 = (inl e, s2))
      by (vm_compute; reflexivity).
    destruct (second_item_fails off 0 _ _ s1 s2 e Hlen Hr Ho H1 H2)
      as [Hoff _].
    destruct (Hoff eq_refl) as (E & _ & R).
    split.
    + rewrite E. reflexivity.
    + etransitivity; [apply R |]; vm_compute; reflexivity.
  - pose (s1 := (item_body on "instance" "restart" 0 s0).2).
    pose (s2 := (item_body on "instance" "restart" 1 s1).2).
    pose (s3 := (item_body on "instance" "restart" 2
                   (push (error_item e) s2).2).2).
    assert (Hlen : length (getInputData on) = 3) by reflexivity.
    assert (Hr : getNodeParameter_string on "resource" 0 = inr "instance")
      by reflexivity.
    assert (Ho : getNodeParameter_string on "operation" 0 = inr "restart")
      by reflexivity.
    assert (H1 : item_body on "instance" "restart" 0 s0 = (inr tt, s1))
      by (vm_compute; reflexivity).
    assert (H2 : item_body on "instance" "restart" 1 s1 = (inl e, s2))
      by (vm_compute; reflexivity).
    assert (H3 : item_body on "instance" "restart" 2
                   (push (error_item e) s2).2 = (inr tt, s3))
      by (vm_compute; reflexivity).
    destruct (second_item_fails on 0 _ _ s1 s2 e Hlen Hr Ho H1 H2)
      as (_ & Hon & _).
    destruct (Hon eq_refl s3 H3) as (E & _ & R).
    rewrite E. cbn [fst].
    change (helpers_returnJsonArray on (returnData (locals s3)))
      with (returnData (locals s3)).
    rewrite R; vm_compute; reflexivity.
Defined.

(** C1 (as stated) fails when the first response is an array of two: with
    tolerance off no output is returned at all (and the collection holds two
    items, not one); with tolerance on the output has four items, not
    three. *)
Lemma second_item_fails_counterexample :
  let answer := second_call_fails (VArray [VString "a"; VString "b"]) in
  let off := sample_host 3 false "http://ci" "instance" "restart" ""
               answer parse_ok in
  let on := sample_host 3 true "http://ci" "instance" "restart" ""
              answer parse_ok in
  ¬ (∃ out, (execute off (initial 0)).1 = inr [out] ∧ length out = 1)
  ∧ length (returnData (locals (execute off (initial 0)).2)) = 2
  ∧ ¬ (∃ out, (execute on (initial 0)).1 = inr [out] ∧ length out = 3).
Proof.
  intros answer off on. split; [| split].
  - intros (out & E & _). vm_compute in E. discriminate E.
  - reflexivity.
  - intros (out & E & L). vm_compute in E. inversion E; subst out.
    vm_compute in L. discriminate L.
Qed.

(** ** What is fetched, and how often *)

Section Fetches.

Context {W : Type} (h : Host W).





End Fetches.



(** ** A resource and operation that no branch handles *)

Section Unmatched.

Context {W : Type} (h : Host W).

Lemma dispatch_unmatched resource operation burl i (s : store W exec_locals) :
  matches_branch resource operation = false →
  dispatch h resource operation burl i s = (inr tt, s).
Proof.
  unfold matches_branch, dispatch, job_block, instance_block, build_block.
  intros H.
  destruct (resource =? "job"), (resource =? "instance"),
    (resource =? "build"); simpl in H;
    repeat match type of H with
           | context [operation =? ?x] =>
               destruct (operation =? x); simpl in H; try discriminate H
           end;
    reflexivity.
Qed.

Lemma fetch_response_unmatched resource operation i
    (s : store W exec_locals) c :
  matches_branch resource operation = false →
  getCredentials h "JenkinsApi" = inr c →
  fetch_response h resource operation i s =
    (inr tt,
     mkStore (world s) (trace s ++ [EvGetCredentials "JenkinsApi"]) (locals s)).
Proof.
  intros Hm Hc.
  unfold fetch_response, getCredentialsOf, mbind, M_bind, log, lift. simpl.
  rewrite Hc. rewrite (dispatch_unmatched _ _ _ _ _ Hm). reflexivity.
Qed.

(** An item that matches no branch goes straight to the push, with the
    [responseData] it found. *)
Lemma item_body_unmatched resource operation i (s : store W exec_locals) c :
  matches_branch resource operation = false →
  getCredentials h "JenkinsApi" = inr c →
  item_body h resource operation i s =
    push_response h
      (mkStore (world s) (trace s ++ [EvGetCredentials "JenkinsApi"])
         (locals s)).
Proof.
  intros Hm Hc. rewrite item_body_eq.
  rewrite (fetch_response_unmatched _ _ _ _ _ Hm Hc). reflexivity.
Qed.

Lemma for_loop_unmatched resource operation c n :
  matches_branch resource operation = false →
  getCredentials h "JenkinsApi" = inr c →
  ∀ i (w : W) tr rd,
    for_loop h resource operation n i (mkStore w tr (mkLocals rd VUndefined)) =
      (inr tt,
       mkStore w (tr ++ replicate n (EvGetCredentials "JenkinsApi"))
         (mkLocals (rd ++ replicate n VUndefined) VUndefined)).
Proof.
  intros Hm Hc. induction n as [|n IH]; intros i w tr rd.
  - simpl. rewrite !app_nil_r. reflexivity.
  - assert (E : item_body h resource operation i
                 (mkStore w tr (mkLocals rd VUndefined))
               = (inr tt,
                  mkStore w (tr ++ [EvGetCredentials "JenkinsApi"])
                    (mkLocals (rd ++ [VUndefined]) VUndefined)))
      by (rewrite (item_body_unmatched _ _ _ _ _ Hm Hc), push_response_eq;
          reflexivity).
    rewrite (for_loop_step h _ _ _ _ _ _ _ E), IH.
    simpl. rewrite <- !app_assoc. reflexivity.
Qed.

(** C7 (as amended).  When the resolved resource and operation match none of
    the branches and the credentials resolve, no request is made and the loop
    appends one value for every input item, [undefined] each time, for the
    first item and for every later one: the pair is read once before the
    loop, so no item of the run matches a branch and [responseData] is never
    assigned. *)
Theorem execute_unmatched (w : W) resource operation c :
  getNodeParameter_string h "resource" 0 = inr resource →
  getNodeParameter_string h "operation" 0 = inr operation →
  matches_branch resource operation = false →
  getCredentials h "JenkinsApi" = inr c →
  let n := length (getInputData h) in
  execute h (initial w) =
    (inr [helpers_returnJsonArray h (replicate n VUndefined)],
     mkStore w
       ([EvGetNodeParameter "resource" 0; EvGetNodeParameter "operation" 0]
        ++ replicate n (EvGetCredentials "JenkinsApi"))
       (mkLocals (replicate n VUndefined) VUndefined)).
Proof.
  intros Hr Ho Hm Hc n.
  rewrite (execute_eq h w resource operation Hr Ho).
  rewrite (for_loop_unmatched _ _ _ _ Hm Hc). reflexivity.
Qed.

End Unmatched.

(** The job resource with an operation the node does not know, two items. *)
Lemma execute_unmatched_witness :
  let h := sample_host 2 false "http://ci" "job" "delete" ""
             always_ok parse_ok in
  (execute h (initial 0)).1 = inr [[VUndefined; VUndefined]].
Proof.
  intros h.
  rewrite (execute_unmatched h 0 "job" "delete"
             (mkCredentials "admin" "11aa" "http://ci")
             eq_refl eq_refl eq_refl eq_refl).
  reflexivity.
Defined.

(** C7 (as stated) fails for the later item: over two items with an
    operation that no branch handles, the value appended for the second item
    is [undefined] too, and no item of the run has made a request whose
    response it could be, although the transport answers every call. *)
Lemma later_item_counterexample :
  let h := sample_host 2 false "http://ci" "job" "delete" ""
             always_ok parse_ok in
  returnData (locals (execute h (initial 0)).2) !! 1 = Some VUndefined
  ∧ ¬ (∃ c, In (EvApiRequest c) (trace (execute h (initial 0)).2)).
Proof.
  intros h. split.
  - vm_compute. reflexivity.
  - intros (c & H). vm_compute in H. intuition discriminate.
Qed.

(** ** The requests of the branches *)

Section Requests.

Context {W : Type} (h : Host W).

Lemma api_calls_app (tr1 tr2 : list event) :
  api_calls (tr1 ++ tr2) = api_calls tr1 ++ api_calls tr2.
Proof.
  induction tr1 as [|e tr1 IH]; [reflexivity |].
  destruct e; simpl; rewrite IH; reflexivity.
Qed.

Lemma parse_calls_app (tr1 tr2 : list event) :
  parse_calls (tr1 ++ tr2) = parse_calls tr1 ++ parse_calls tr2.
Proof.
  induction tr1 as [|e tr1 IH]; [reflexivity |].
  destruct e; simpl; rewrite IH; reflexivity.
Qed.

Local Arguments String.append !_ _ / : simpl nomatch.

(** Unfold the statements before the push down to the host calls. *)
Ltac run :=
  cbv [fetch_response dispatch job_block instance_block build_block
       getNodeParameter getParams getFilters getCredentialsOf apiRequest
       parseXml set_responseData get_locals set_locals log lift outside throw
       when mbind M_bind mret M_ret];
  cbn.

Ltac answer :=
  match goal with
  | |- context [jenkinsApiRequest h ?c ?w0] =>
      destruct (jenkinsApiRequest h c w0) as [[?|?] ?] eqn:?
  end.

(** What an item shows of the one request its branch makes: the trace it
    leaves, and what it does with either answer of [jenkinsApiRequest]. *)
Lemma request_facts resource operation i (s : store W exec_locals) tr call :
  fetch_response h resource operation i s
    = fetched s tr (jenkinsApiRequest h call (world s)) →
  trace (item_body h resource operation i s).2 = tr
  ∧ (∀ e w', jenkinsApiRequest h call (world s) = (inl e, w') →
       (item_body h resource operation i s).1 = inl e
       ∧ world (item_body h resource operation i s).2 = w'
       ∧ locals (item_body h resource operation i s).2 = locals s)
  ∧ (∀ v w', jenkinsApiRequest h call (world s) = (inr v, w') →
       world (item_body h resource operation i s).2 = w'
       ∧ responseData (locals (item_body h resource operation i s).2) = v
       ∧ (overflow h v = None →
          (item_body h resource operation i s).1 = inr tt
          ∧ returnData (locals (item_body h resource operation i s).2)
              = returnData (locals s) ++ response_items v)
       ∧ (∀ e, overflow h v = Some e →
          (item_body h resource operation i s).1 = inl e
          ∧ returnData (locals (item_body h resource operation i s).2)
              = returnData (locals s))).
Proof.
  intros F. rewrite item_body_eq, F.
  destruct (jenkinsApiRequest h call (world s)) as [[e|v] w]; simpl.
  - split; [reflexivity |]. split.
    + intros e' w' H. inversion H; subst. repeat split.
    + intros v' w' H. discriminate H.
  - rewrite push_response_eq. simpl.
    split; [destruct (overflow h v); reflexivity |]. split.
    + intros e' w' H. discriminate H.
    + intros v' w' H. inversion H; subst v' w'.
      destruct (overflow h v) as [e|]; simpl.
      * split; [reflexivity |]. split; [reflexivity |].
        split; [discriminate |].
        intros e' He'. inversion He'. split; reflexivity.
      * split; [reflexivity |]. split; [reflexivity |].
        split; [intros _; split; reflexivity | discriminate].
Qed.

(** *** The instance branches *)

Lemma fetch_instance operation i (s : store W exec_locals) c reason :
  In operation instance_operations →
  getCredentials h "JenkinsApi" = inr c →
  (operation = "quietDown" →
   getNodeParameter_string h "reason" i = inr reason) →
  fetch_response h "instance" operation i s
    = fetched s
        (trace s
         ++ EvGetCredentials "JenkinsApi"
            :: (if operation =? "quietDown"
                then [EvGetNodeParameter "reason" i] else [])
            ++ [EvApiRequest (instance_call (baseUrl c) operation reason)])
        (jenkinsApiRequest h (instance_call (baseUrl c) operation reason)
           (world s)).
Proof.
  intros Hin Hc Hreason. unfold instance_call. simpl in Hin.
  destruct Hin as [<-|[<-|[<-|[<-|[<-|[<-|[]]]]]]]; run; rewrite Hc; cbn.
  1: rewrite (Hreason eq_refl); cbn; destruct (reason =? ""); cbn.
  all: answer; cbn; rewrite <- ?app_assoc; reflexivity.
Qed.

(** C9.  For each of the six instance operations the item makes one request
    and hands [jenkinsApiRequest] POST [{baseUrl}/{operation}]; the query is
    [{reason}] for quietDown with a non-empty reason and is absent in every
    other case; no header and no body argument is passed.  What
    [jenkinsApiRequest] does with this call in the current world decides the
    item: its error is the error of the item, its answer the response of the
    item. *)
Theorem instance_request operation i (s : store W exec_locals) c reason :
  In operation instance_operations →
  getCredentials h "JenkinsApi" = inr c →
  (operation = "quietDown" →
   getNodeParameter_string h "reason" i = inr reason) →
  api_calls (trace (item_body h "instance" operation i s).2)
    = api_calls (trace s)
      ++ [mkCall "post" (baseUrl c +:+ "/" +:+ operation)
            (if (operation =? "quietDown") && negb (reason =? "")
             then VObject {[ "reason" := VString reason ]}
             else VUndefined)
            VUndefined VUndefined]
  ∧ (∀ e w',
       jenkinsApiRequest h (instance_call (baseUrl c) operation reason)
         (world s) = (inl e, w') →
       (item_body h "instance" operation i s).1 = inl e
       ∧ world (item_body h "instance" operation i s).2 = w'
       ∧ locals (item_body h "instance" operation i s).2 = locals s)
  ∧ (∀ v w',
       jenkinsApiRequest h (instance_call (baseUrl c) operation reason)
         (world s) = (inr v, w') →
       world (item_body h "instance" operation i s).2 = w'
       ∧ responseData (locals (item_body h "instance" operation i s).2) = v
       ∧ (overflow h v = None →
          (item_body h "instance" operation i s).1 = inr tt
          ∧ returnData (locals (item_body h "instance" operation i s).2)
              = returnData (locals s) ++ response_items v)).
Proof.
  intros Hin Hc Hreason.
  destruct (request_facts _ _ _ _ _ _
              (fetch_instance operation i s c reason Hin Hc Hreason))
    as (T & Err & Ok).
  split; [| split].
  - rewrite T, api_calls_app. unfold instance_call. simpl.
    destruct (operation =? "quietDown"); reflexivity.
  - exact Err.
  - intros v w' H. destruct (Ok v w' H) as (Hw & Hr & Hp & _).
    repeat split; [exact Hw | exact Hr | apply Hp; assumption ..].
Qed.

(** *** The build branch *)

Lemma fetch_getAll i (s : store W exec_locals) c f :
  getCredentials h "JenkinsApi" = inr c →
  getNodeParameter_filters h i = inr f →
  fetch_response h "build" "build:getAll" i s =
    match jenkinsApiRequest h (getAll_call (baseUrl c) f) (world s) with
    | (inl e, w') =>
        (inl e,
         mkStore w'
           (trace s
            ++ [EvGetCredentials "JenkinsApi"; EvGetNodeParameter "filters" i;
                EvApiRequest (getAll_call (baseUrl c) f)])
           (locals s))
    | (inr response, w') =>
        fetched s
          (trace s
           ++ [EvGetCredentials "JenkinsApi"; EvGetNodeParameter "filters" i;
               EvApiRequest (getAll_call (baseUrl c) f);
               EvParseString response false])
          (parseString h response false, w')
    end.
Proof.
  intros Hc Hf. unfold getAll_call, getAll_query.
  run. rewrite Hc. cbn. rewrite Hf. cbn.
  answer; cbn; [rewrite <- ?app_assoc; reflexivity |].
  destruct (parseString h _ false); cbn; rewrite <- ?app_assoc; reflexivity.
Qed.

Lemma item_getAll i (s : store W exec_locals) c f :
  getCredentials h "JenkinsApi" = inr c →
  getNodeParameter_filters h i = inr f →
  item_body h "build" "build:getAll" i s =
    match jenkinsApiRequest h (getAll_call (baseUrl c) f) (world s) with
    | (inl e, w') =>
        (inl e,
         mkStore w'
           (trace s
            ++ [EvGetCredentials "JenkinsApi"; EvGetNodeParameter "filters" i;
                EvApiRequest (getAll_call (baseUrl c) f)])
           (locals s))
    | (inr response, w') =>
        match parseString h response false with
        | inl err =>
            (inl err,
             mkStore w'
               (trace s
                ++ [EvGetCredentials "JenkinsApi";
                    EvGetNodeParameter "filters" i;
                    EvApiRequest (getAll_call (baseUrl c) f);
                    EvParseString response false])
               (locals s))
        | inr data =>
            push_response h
              (mkStore w'
                 (trace s
                  ++ [EvGetCredentials "JenkinsApi";
                      EvGetNodeParameter "filters" i;
                      EvApiRequest (getAll_call (baseUrl c) f);
                      EvParseString response false])
                 (mkLocals (returnData (locals s)) data))
        end
    end.
Proof.
  intros Hc Hf. rewrite item_body_eq, (fetch_getAll i s c f Hc Hf).
  destruct (jenkinsApiRequest h _ (world s)) as [[e|response] w'];
    [reflexivity |].
  unfold fetched. destruct (parseString h response false); reflexivity.
Qed.

(** C6.  A build:getAll item whose filters leave [depth] unset hands
    [jenkinsApiRequest] GET [{baseUrl}/api/xml] with [depth] equal to 1 in the
    query, and it is the answer to this call that the item goes on with: an
    error of the call is the error of the item, and the text it returns is
    what is parsed. *)
Theorem getAll_default_depth i (s : store W exec_locals) c f :
  getCredentials h "JenkinsApi" = inr c →
  getNodeParameter_filters h i = inr f →
  filters_depth f = None →
  ∃ q,
    api_calls (trace (item_body h "build" "build:getAll" i s).2)
      = api_calls (trace s)
        ++ [mkCall "get" (baseUrl c +:+ "/api/xml") (VObject q)
              VUndefined VUndefined]
    ∧ q !! "depth" = Some (VNumber (Int 1))
    ∧ VObject q = getAll_query f
    ∧ (∀ e w',
         jenkinsApiRequest h
           (mkCall "get" (baseUrl c +:+ "/api/xml") (VObject q)
              VUndefined VUndefined)
           (world s) = (inl e, w') →
         (item_body h "build" "build:getAll" i s).1 = inl e
         ∧ world (item_body h "build" "build:getAll" i s).2 = w'
         ∧ locals (item_body h "build" "build:getAll" i s).2 = locals s)
    ∧ (∀ response w',
         jenkinsApiRequest h
           (mkCall "get" (baseUrl c +:+ "/api/xml") (VObject q)
              VUndefined VUndefined)
           (world s) = (inr response, w') →
         world (item_body h "build" "build:getAll" i s).2 = w'
         ∧ parse_calls (trace (item_body h "build" "build:getAll" i s).2)
             = parse_calls (trace s) ++ [(response, false)]).
Proof.
  intros Hc Hf Hd.
  pose proof (item_getAll i s c f Hc Hf) as E.
  unfold getAll_call, getAll_query in E. rewrite Hd in E. simpl in E.
  unfold getAll_query. rewrite Hd. simpl.
  eexists. split; [| split; [| split; [| split]]].
  - rewrite E.
    destruct (jenkinsApiRequest h _ (world s)) as [[e|response] w'];
      [| destruct (parseString h response false)].
    3: match goal with
       | |- context [push_response h ?s0] =>
           destruct (push_response_frame h s0) as (_ & -> & _)
       end.
    all: simpl; rewrite api_calls_app; simpl; reflexivity.
  - reflexivity.
  - reflexivity.
  - intros e w' H. rewrite E, H. repeat split.
  - intros response w' H. rewrite E, H.
    destruct (parseString h response false) as [err|data].
    + simpl. rewrite parse_calls_app. split; reflexivity.
    + match goal with
      | |- context [push_response h ?s0] =>
          destruct (push_response_frame h s0) as (-> & -> & _)
      end.
      simpl. rewrite parse_calls_app. split; reflexivity.
Qed.

(** C8.  In a build:getAll item the text the request returns goes through
    one [parseString] call with [explicitArray] false.  When the parse fails
    the item throws the parse error and leaves the locals as they were:
    nothing is appended, and the catch clause treats it like any other error of
    the item.  When it succeeds, its result becomes the response of the
    item, which is then pushed: appended, or refused by [push.apply] when it
    is an array too long for it. *)
Theorem getAll_parse i (s : store W exec_locals) c f response w' :
  getCredentials h "JenkinsApi" = inr c →
  getNodeParameter_filters h i = inr f →
  jenkinsApiRequest h
    (mkCall "get" (baseUrl c +:+ "/api/xml") (getAll_query f)
       VUndefined VUndefined)
    (world s) = (inr response, w') →
  parse_calls (trace (item_body h "build" "build:getAll" i s).2)
    = parse_calls (trace s) ++ [(response, false)]
  ∧ (∀ err, parseString h response false = inl err →
       ∃ s',
         item_body h "build" "build:getAll" i s = (inl err, s')
         ∧ locals s' = locals s
         ∧ try_catch (item_body h "build" "build:getAll" i) (on_error h) s
             = if continueOnFail h
               then (inr tt, (push (error_item err) s').2)
               else (inl err, s'))
  ∧ (∀ data, parseString h response false = inr data →
       overflow h data = None →
       ∃ s',
         item_body h "build" "build:getAll" i s = (inr tt, s')
         ∧ responseData (locals s') = data
         ∧ returnData (locals s')
             = returnData (locals s) ++ response_items data)
  ∧ (∀ data e, parseString h response false = inr data →
       overflow h data = Some e →
       ∃ s',
         item_body h "build" "build:getAll" i s = (inl e, s')
         ∧ responseData (locals s') = data
         ∧ returnData (locals s') = returnData (locals s)).
Proof.
  intros Hc Hf Hreq.
  pose proof (item_getAll i s c f Hc Hf) as E.
  unfold getAll_call in E. rewrite Hreq in E.
  split; [| split; [| split]].
  - rewrite E. destruct (parseString h response false) as [err|data].
    + simpl. rewrite parse_calls_app. reflexivity.
    + match goal with
      | |- context [push_response h ?s0] =>
          destruct (push_response_frame h s0) as (_ & -> & _)
      end.
      simpl. rewrite parse_calls_app. reflexivity.
  - intros err Hp. rewrite Hp in E. eexists. split; [exact E |].
    split; [reflexivity |].
    unfold try_catch, on_error. rewrite E. cbn.
    destruct (continueOnFail h); reflexivity.
  - intros data Hp Ho. rewrite Hp, push_response_eq in E. simpl in E.
    rewrite Ho in E. eexists. split; [exact E |]. split; reflexivity.
  - intros data e Hp Ho. rewrite Hp, push_response_eq in E. simpl in E.
    rewrite Ho in E. eexists. split; [exact E |]. split; reflexivity.
Qed.

(** *** The job branches *)

Lemma fetch_trigger i (s : store W exec_locals) c token job :
  getCredentials h "JenkinsApi" = inr c →
  getNodeParameter_string h "token" i = inr token →
  getNodeParameter_string h "job" i = inr job →
  fetch_response h "job" "trigger" i s
    = fetched s
        (trace s
         ++ [EvGetCredentials "JenkinsApi";
             EvGetNodeParameter "token" i; EvGetNodeParameter "job" i;
             EvApiRequest (trigger_call (baseUrl c) job token)])
        (jenkinsApiRequest h (trigger_call (baseUrl c) job token) (world s)).
Proof.
  intros Hc Ht Hj. unfold trigger_call.
  run. rewrite Hc. cbn. rewrite Ht. cbn. rewrite Hj. cbn.
  answer; cbn; rewrite <- ?app_assoc; reflexivity.
Qed.

Lemma params_body_eq (params : list param) :
  params_body params = VObject (reduce_params params).
Proof. destruct params; reflexivity. Qed.

Lemma fetch_triggerParams i (s : store W exec_locals) c token job params :
  getCredentials h "JenkinsApi" = inr c →
  getNodeParameter_string h "token" i = inr token →
  getNodeParameter_string h "job" i = inr job →
  getNodeParameter_params h i = inr params →
  fetch_response h "job" "triggerParams" i s
    = fetched s
        (trace s
         ++ [EvGetCredentials "JenkinsApi";
             EvGetNodeParameter "token" i; EvGetNodeParameter "job" i;
             EvGetNodeParameter "param.params" i;
             EvApiRequest (triggerParams_call (baseUrl c) job token params)])
        (jenkinsApiRequest h (triggerParams_call (baseUrl c) job token params)
           (world s)).
Proof.
  intros Hc Ht Hj Hp. unfold triggerParams_call.
  run. rewrite Hc. cbn. rewrite Ht. cbn. rewrite Hj. cbn. rewrite Hp. cbn.
  rewrite params_body_eq.
  answer; cbn; rewrite <- ?app_assoc; reflexivity.
Qed.

Lemma fetch_copy i (s : store W exec_locals) c job name :
  getCredentials h "JenkinsApi" = inr c →
  getNodeParameter_string h "job" i = inr job →
  getNodeParameter_string h "newJob" i = inr name →
  fetch_response h "job" "copy" i s
    = fetched s
        (trace s
         ++ [EvGetCredentials "JenkinsApi";
             EvGetNodeParameter "job" i; EvGetNodeParameter "newJob" i;
             EvApiRequest (copy_call (baseUrl c) job name)])
        (jenkinsApiRequest h (copy_call (baseUrl c) job name) (world s)).
Proof.
  intros Hc Hj Hn. unfold copy_call.
  run. rewrite Hc. cbn. rewrite Hj. cbn. rewrite Hn. cbn.
  answer; cbn; rewrite <- ?app_assoc; reflexivity.
Qed.

Lemma fetch_create i (s : store W exec_locals) c name xml :
  getCredentials h "JenkinsApi" = inr c →
  getNodeParameter_string h "newJob" i = inr name →
  getNodeParameter_string h "xml" i = inr xml →
  fetch_response h "job" "create" i s
    = fetched s
        (trace s
         ++ [EvGetCredentials "JenkinsApi";
             EvGetNodeParameter "newJob" i; EvGetNodeParameter "xml" i;
             EvApiRequest (create_call (baseUrl c) name xml)])
        (jenkinsApiRequest h (create_call (baseUrl c) name xml) (world s)).
Proof.
  intros Hc Hn Hx. unfold create_call.
  run. rewrite Hc. cbn. rewrite Hn. cbn. rewrite Hx. cbn.
  answer; cbn; rewrite <- ?app_assoc; reflexivity.
Qed.

(** *** The fold of the parameters *)

Lemma foldl_params_lookup (params : list param) :
  ∀ (acc : gmap string value) name,
    foldl (λ body p, assign body (param_name p) (param_value p))
      acc params !! name
    = if name =? "__proto__" then acc !! name
      else match last_value name params with
           | Some v => Some (VString v)
           | None => acc !! name
           end.
Proof.
  induction params as [|p rest IH]; intros acc name.
  - simpl. destruct (name =? "__proto__"); reflexivity.
  - simpl. rewrite IH. unfold assign.
    destruct (String.eqb_spec name "__proto__") as [->|Hn].
    + destruct (String.eqb_spec (param_name p) "__proto__"); [reflexivity |].
      apply lookup_insert_ne. assumption.
    + destruct (last_value name rest); [reflexivity |].
      destruct (String.eqb_spec (param_name p) name) as [->|Hne].
      * destruct (String.eqb_spec name "__proto__"); [contradiction |].
        apply lookup_insert_eq.
      * destruct (param_name p =? "__proto__"); [reflexivity |].
        apply lookup_insert_ne, Hne.
Qed.

Lemma reduce_params_lookup (params : list param) name :
  reduce_params params !! name
    = if name =? "__proto__" then None
      else VString <$> last_value name params.
Proof.
  unfold reduce_params. rewrite foldl_params_lookup.
  destruct (name =? "__proto__"); [reflexivity |].
  destruct (last_value name params); reflexivity.
Qed.

Lemma last_value_elem_of name v (params : list param) :
  last_value name params = Some v → mkParam name v ∈ params.
Proof.
  induction params as [|[pn pv] rest IH]; simpl; [discriminate |].
  destruct (last_value name rest).
  - intros H. apply elem_of_cons. right. apply IH, H.
  - destruct (String.eqb_spec pn name) as [->|]; [| discriminate].
    intros H. inversion H. apply elem_of_cons. left. reflexivity.
Qed.

Lemma elem_of_last_value name v (params : list param) :
  NoDup (map param_name params) →
  mkParam name v ∈ params → last_value name params = Some v.
Proof.
  induction params as [|p rest IH]; simpl; [intros _ H; inversion H |].
  intros Hnd Hin. apply NoDup_cons in Hnd as [Hnotin Hrest].
  apply elem_of_cons in Hin as [<-|Hin].
  - simpl. destruct (last_value name rest) as [v'|] eqn:E.
    + exfalso. apply Hnotin. apply last_value_elem_of in E.
      apply (list_elem_of_fmap_2 param_name) in E. exact E.
    + rewrite String.eqb_refl. reflexivity.
  - rewrite (IH Hrest Hin). reflexivity.
Qed.

Lemma last_value_app name (l1 l2 : list param) :
  last_value name (l1 ++ l2)
    = match last_value name l2 with
      | Some v => Some v
      | None => last_value name l1
      end.
Proof.
  induction l1 as [|p l1 IH]; simpl.
  - destruct (last_value name l2); reflexivity.
  - rewrite IH. destruct (last_value name l2); reflexivity.
Qed.

(** C2.  The triggerParams item hands [jenkinsApiRequest] one call whose
    body argument is [{data: m}], and goes on with the answer to it; [m] is
    the left fold of the parameter list by property assignment.  Under each
    name other than __proto__, [m] holds the value of the last entry with that
    name, so that a later entry overwrites an earlier one; an entry named
    __proto__ leaves no key at all; and when the names are unique and none is
    __proto__, [m] holds exactly the pairs of the list. *)
Theorem triggerParams_body i (s : store W exec_locals) c token job params :
  getCredentials h "JenkinsApi" = inr c →
  getNodeParameter_string h "token" i = inr token →
  getNodeParameter_string h "job" i = inr job →
  getNodeParameter_params h i = inr params →
  api_calls (trace (item_body h "job" "triggerParams" i s).2)
    = api_calls (trace s)
      ++ [mkCall "get"
            (baseUrl c +:+ "/job/" +:+ job +:+ "/buildWithParameters?token="
             +:+ token)
            empty_object empty_object
            (VObject {[ "data" := VObject (reduce_params params) ]})]
  ∧ (∀ e w',
       jenkinsApiRequest h (triggerParams_call (baseUrl c) job token params)
         (world s) = (inl e, w') →
       (item_body h "job" "triggerParams" i s).1 = inl e
       ∧ world (item_body h "job" "triggerParams" i s).2 = w'
       ∧ locals (item_body h "job" "triggerParams" i s).2 = locals s)
  ∧ (∀ v w',
       jenkinsApiRequest h (triggerParams_call (baseUrl c) job token params)
         (world s) = (inr v, w') →
       world (item_body h "job" "triggerParams" i s).2 = w'
       ∧ responseData (locals (item_body h "job" "triggerParams" i s).2) = v
       ∧ (overflow h v = None →
          (item_body h "job" "triggerParams" i s).1 = inr tt
          ∧ returnData (locals (item_body h "job" "triggerParams" i s).2)
              = returnData (locals s) ++ response_items v))
  ∧ (∀ name, name ≠ "__proto__" →
       reduce_params params !! name = VString <$> last_value name params)
  ∧ reduce_params params !! "__proto__" = None
  ∧ (NoDup (map param_name params) →
     "__proto__" ∉ map param_name params →
     ∀ name v, reduce_params params !! name = Some (VString v)
               ↔ mkParam name v ∈ params).
Proof.
  intros Hc Ht Hj Hp.
  destruct (request_facts _ _ _ _ _ _
              (fetch_triggerParams i s c token job params Hc Ht Hj Hp))
    as (T & Err & Ok).
  split; [| split; [| split; [| split; [| split]]]].
  - rewrite T, api_calls_app. reflexivity.
  - exact Err.
  - intros v w' H. destruct (Ok v w' H) as (Hw & Hr & Hpush & _).
    repeat split; [exact Hw | exact Hr | apply Hpush; assumption ..].
  - intros name Hn. rewrite reduce_params_lookup.
    destruct (String.eqb_spec name "__proto__"); [contradiction | reflexivity].
  - rewrite reduce_params_lookup. reflexivity.
  - intros Hnd Hproto name v. rewrite reduce_params_lookup.
    destruct (String.eqb_spec name "__proto__") as [->|Hn].
    + split; [discriminate |]. intros Hin. exfalso. apply Hproto.
      apply (list_elem_of_fmap_2 param_name) in Hin. exact Hin.
    + split.
      * destruct (last_value name params) as [v'|] eqn:E; [| discriminate].
        intros H. inversion H; subst. apply last_value_elem_of, E.
      * intros Hin. rewrite (elem_of_last_value _ _ _ Hnd Hin). reflexivity.
Qed.

End Requests.

(** quietDown without and with a reason, and safeExit: what is handed over,
    and that the answer of the host becomes the response of the item. *)
Lemma instance_request_witness :
  let quiet := sample_host 1 false "http://ci" "instance" "quietDown" ""
                 always_ok parse_ok in
  let named := sample_host 1 false "http://ci" "instance" "quietDown"
                 "upgrade" always_ok parse_ok in
  api_calls (trace (item_body quiet "instance" "quietDown" 0 (initial 0)).2)
    = [mkCall "post" "http://ci/quietDown" VUndefined VUndefined VUndefined]
  ∧ api_calls (trace (item_body named "instance" "quietDown" 0 (initial 0)).2)
    = [mkCall "post" "http://ci/quietDown"
         (VObject {[ "reason" := VString "upgrade" ]}) VUndefined VUndefined]
  ∧ api_calls (trace (item_body named "instance" "safeExit" 0 (initial 0)).2)
    = [mkCall "post" "http://ci/safeExit" VUndefined VUndefined VUndefined]
  ∧ responseData
      (locals (item_body named "instance" "safeExit" 0 (initial 0)).2)
    = VString "ok".
Proof.
  intros quiet named.
  pose (c := mkCredentials "admin" "11aa" "http://ci").
  split; [| split; [| split]].
  - apply (instance_request quiet "quietDown" 0 (initial 0) c "");
      [simpl; tauto | reflexivity | reflexivity].
  - apply (instance_request named "quietDown" 0 (initial 0) c "upgrade");
      [simpl; tauto | reflexivity | reflexivity].
  - apply (instance_request named "safeExit" 0 (initial 0) c "upgrade");
      [simpl; tauto | reflexivity | discriminate].
  - destruct (instance_request named "safeExit" 0 (initial 0) c "upgrade")
      as (_ & _ & Ok); [simpl; tauto | reflexivity | discriminate |].
    apply (Ok (VString "ok") 1 eq_refl).
Defined.

(** Filters without a depth. *)
Lemma getAll_default_depth_witness :
  let h := sample_host 1 false "http://ci" "build" "build:getAll" ""
             always_ok parse_ok in
  ∃ q,
    api_calls (trace (item_body h "build" "build:getAll" 0 (initial 0)).2)
      = [mkCall "get" "http://ci/api/xml" (VObject q) VUndefined VUndefined]
    ∧ q !! "depth" = Some (VNumber (Int 1))
    ∧ VObject q = getAll_query sample_filters
    ∧ parse_calls (trace (item_body h "build" "build:getAll" 0 (initial 0)).2)
      = [(VString "ok", false)].
Proof.
  intros h.
  destruct (getAll_default_depth h 0 (initial 0)
              (mkCredentials "admin" "11aa" "http://ci") sample_filters
              eq_refl eq_refl eq_refl) as (q & A & D & Q & _ & Ok).
  exists q. split; [exact A | split; [exact D | split; [exact Q |]]].
  apply (Ok (VString "ok") 1 eq_refl).
Defined.

(** A response that does not parse: the item throws the parse error. *)
Lemma getAll_parse_witness :
  let h := sample_host 1 false "http://ci" "build" "build:getAll" ""
             always_ok parse_fails in
  parse_calls (trace (item_body h "build" "build:getAll" 0 (initial 0)).2)
    = [(VString "ok", false)]
  ∧ ∃ s',
      item_body h "build" "build:getAll" 0 (initial 0)
        = (inl (mkError "Unclosed root tag"), s')
      ∧ locals s' = locals (initial 0).
Proof.
  intros h.
  destruct (getAll_parse h 0 (initial 0)
              (mkCredentials "admin" "11aa" "http://ci") sample_filters
              (VString "ok") 1 eq_refl eq_refl eq_refl) as (P & F & _).
  split; [exact P |].
  destruct (F (mkError "Unclosed root tag") eq_refl) as (s' & E & L & _).
  exists s'. split; assumption.
Defined.

(** A list with a repeated name, one with unique names, and one whose only
    entry is named __proto__. *)
Lemma triggerParams_body_witness :
  let h := sample_host 1 false "http://ci" "job" "triggerParams" ""
             always_ok parse_ok in
  let unique := [mkParam "branch" "main"; mkParam "target" "x86"] in
  let u := sample_host_of unique sample_filters 1 false "http://ci" "job"
             "triggerParams" "" always_ok parse_ok in
  let proto := [mkParam "__proto__" "x"] in
  let p := sample_host_of proto sample_filters 1 false "http://ci" "job"
             "triggerParams" "" always_ok parse_ok in
  api_calls (trace (item_body h "job" "triggerParams" 0 (initial 0)).2)
    = [mkCall "get" "http://ci/job/nightly/buildWithParameters?token=s3cr3t"
         empty_object empty_object
         (VObject {[ "data" := VObject (reduce_params sample_params) ]})]
  ∧ responseData
      (locals (item_body h "job" "triggerParams" 0 (initial 0)).2)
    = VString "ok"
  ∧ reduce_params sample_params !! "branch" = Some (VString "dev")
  ∧ reduce_params unique !! "branch" = Some (VString "main")
  ∧ reduce_params proto !! "__proto__" = None.
Proof.
  intros h unique u proto p.
  pose (c := mkCredentials "admin" "11aa" "http://ci").
  destruct (triggerParams_body h 0 (initial 0) c "s3cr3t" "nightly"
              sample_params eq_refl eq_refl eq_refl eq_refl)
    as (B & _ & Ok & L & _).
  destruct (triggerParams_body u 0 (initial 0) c "s3cr3t" "nightly"
              unique eq_refl eq_refl eq_refl eq_refl)
    as (_ & _ & _ & _ & _ & U).
  destruct (triggerParams_body p 0 (initial 0) c "s3cr3t" "nightly"
              proto eq_refl eq_refl eq_refl eq_refl)
    as (_ & _ & _ & _ & P & _).
  split; [exact B | split; [| split; [| split; [| exact P]]]].
  - apply (Ok (VString "ok") 1 eq_refl).
  - rewrite L; [reflexivity | discriminate].
  - apply U.
    + apply (bool_decide_unpack _). vm_compute. exact I.
    + intros H. apply list_elem_of_In in H. simpl in H.
      destruct H as [H|[H|[]]]; discriminate H.
    + apply elem_of_cons. left. reflexivity.
Defined.

(** A parameter named __proto__ is well formed and is not sent: the body of
    the request is [{data: {}}]. *)
Lemma triggerParams_proto_dropped :
  let h := sample_host_of [mkParam "__proto__" "x"] sample_filters 1 false
             "http://ci" "job" "triggerParams" "" always_ok parse_ok in
  map call_body
    (api_calls (trace (item_body h "job" "triggerParams" 0 (initial 0)).2))
    = [VObject {[ "data" := VObject ∅ ]}]
  ∧ ¬ (reduce_params [mkParam "__proto__" "x"] !! "__proto__"
       = Some (VString "x")).
Proof.
  intros h. split.
  - vm_compute. reflexivity.
  - vm_compute. discriminate.
Qed.

(** ** The response normalizer *)

Section Normalizer.

Context {W : Type} (h : Host W).

(** C5.  The push at the end of the loop body appends the elements of an
    array response, all of them and in their order, when the engine takes
    them as the arguments of one call; when they are too many for it,
    [push.apply] throws, nothing is appended and the store stays as it was.
    Any other response is appended as one item. *)
Theorem push_response_flattens (w : W) tr rd v :
  (∀ xs, v = VArray xs →
     apply_overflow h (length xs) = None →
     push_response h (mkStore w tr (mkLocals rd v))
       = (inr tt, mkStore w tr (mkLocals (rd ++ xs) v))
     ∧ length (rd ++ xs) = length rd + length xs)
  ∧ (∀ xs e, v = VArray xs →
     apply_overflow h (length xs) = Some e →
     push_response h (mkStore w tr (mkLocals rd v))
       = (inl e, mkStore w tr (mkLocals rd v)))
  ∧ (isArray v = false →
     push_response h (mkStore w tr (mkLocals rd v))
       = (inr tt, mkStore w tr (mkLocals (rd ++ [v]) v))
     ∧ length (rd ++ [v]) = length rd + 1).
Proof.
  split; [| split].
  - intros xs -> Ho. rewrite push_response_eq. simpl. rewrite Ho.
    split; [reflexivity | apply length_app].
  - intros xs e -> Ho. rewrite push_response_eq. simpl. rewrite Ho.
    reflexivity.
  - intros Hv. rewrite push_response_eq. split; [| apply length_app].
    destruct v; try reflexivity. discriminate Hv.
Qed.

End Normalizer.

(** A short array, a number, and an array of 200000 elements on an engine
    that takes 100000 arguments. *)
Lemma push_response_flattens_witness :
  let h := sample_host 1 false "http://ci" "job" "trigger" ""
             always_ok parse_ok in
  let long := VArray (replicate (N.to_nat 200000) VUndefined) in
  push_response h
    (mkStore 0 [] (mkLocals [VString "a"] (VArray [VString "b"; VString "c"])))
    = (inr tt,
       mkStore 0 []
         (mkLocals [VString "a"; VString "b"; VString "c"]
            (VArray [VString "b"; VString "c"])))
  ∧ push_response h (mkStore 0 [] (mkLocals [VString "a"] (VBool true)))
    = (inr tt, mkStore 0 [] (mkLocals [VString "a"; VBool true] (VBool true)))
  ∧ push_response h (mkStore 0 [] (mkLocals [VString "a"] long))
    = (inl (mkError "Maximum call stack size exceeded"),
       mkStore 0 [] (mkLocals [VString "a"] long)).
Proof.
  intros h long. split; [| split].
  - apply (proj1 (push_response_flattens h 0 [] [VString "a"]
                    (VArray [VString "b"; VString "c"])) _ eq_refl eq_refl).
  - apply (proj2 (proj2 (push_response_flattens h 0 [] [VString "a"]
                           (VBool true))) eq_refl).
  - apply (proj1 (proj2 (push_response_flattens h 0 [] [VString "a"] long))
             (replicate (N.to_nat 200000) VUndefined)
             (mkError "Maximum call stack size exceeded") eq_refl).
    vm_compute. reflexivity.
Defined.

(** ** The credential test *)

Section CredentialTest.

Context {W : Type} (h : Host W).

(** C10.  The credential test makes one request, GET on the normalised base
    URL followed by /api/xml, with the header
    [Authorization: Basic base64(username:apiKey)].  It returns OK with the
    message Authentication successful when the request succeeds and Error with
    the message of the error when the request throws; it never throws. *)
Theorem buildsGetApiTest_result (credential : JenkinsApiCredentials)
    (s : store W unit) :
  opt_method (test_options credential) = "GET"
  ∧ opt_uri (test_options credential)
      = tolerateTrailingSlash (baseUrl credential) +:+ "/api/xml"
  ∧ opt_headers (test_options credential)
      = VObject {[ "Authorization" :=
                     VString ("Basic " +:+
                              base64 (username credential +:+ ":" +:+
                                      apiKey credential)) ]}
  ∧ trace (buildsGetApiTest h credential s).2
      = trace s ++ [EvRequest (test_options credential)]
  ∧ (buildsGetApiTest h credential s).1
      = inr match (helpers_request h (test_options credential) (world s)).1 with
            | inr _ => mkTestResult "OK" "Authentication successful"
            | inl error => mkTestResult "Error" (message error)
            end.
Proof.
  repeat split.
  - unfold buildsGetApiTest, try_catch, mbind, M_bind, log, outside, mret, M_ret.
    simpl. destruct (helpers_request h _ _) as [[e|v] w']; reflexivity.
  - unfold buildsGetApiTest, try_catch, mbind, M_bind, log, outside, mret, M_ret.
    simpl. destruct (helpers_request h _ _) as [[e|v] w']; reflexivity.
Qed.

End CredentialTest.

(** The encoding on the usual test strings, with zero, one and two bytes of
    padding. *)
Example base64_vectors :
  base64 "Man" = "TWFu" ∧ base64 "Ma" = "TWE=" ∧ base64 "M" = "TQ=="
  ∧ base64 "admin:11aa" = "YWRtaW46MTFhYQ==".
Proof. repeat split. Qed.

(** ** The trailing slash of the base URL *)

Lemma tolerateTrailingSlash_slash (b : string) :
  tolerateTrailingSlash (b +:+ "/") = b.
Proof.
  induction b as [|c b IH]; [reflexivity |].
  change (String c b +:+ "/") with (String c (b +:+ "/")).
  simpl. rewrite IH. destruct b; reflexivity.
Qed.

(** The credential test asks for the same URI whether or not the base URL
    ends in a slash. *)
Lemma test_uri_trailing_slash u k (b : string) :
  opt_uri (test_options (mkCredentials u k (b +:+ "/"))) = b +:+ "/api/xml".
Proof.
  unfold test_options. simpl. rewrite tolerateTrailingSlash_slash. reflexivity.
Qed.

(** C4.  The loop does not normalise the base URL, as the credential test
    does: with the base URL written http://ci/ the trigger operation hands
    [jenkinsApiRequest] a URI with a doubled slash, which is not the URI it
    hands over for http://ci. *)
Theorem execute_keeps_trailing_slash :
  let slash := sample_host 1 false "http://ci/" "job" "trigger" ""
                 always_ok parse_ok in
  let plain := sample_host 1 false "http://ci" "job" "trigger" ""
                 always_ok parse_ok in
  map call_uri (api_calls (trace (execute slash (initial 0)).2))
    = ["http://ci//job/nightly/build?token=s3cr3t"]
  ∧ map call_uri (api_calls (trace (execute plain (initial 0)).2))
    = ["http://ci/job/nightly/build?token=s3cr3t"]
  ∧ map call_uri (api_calls (trace (execute slash (initial 0)).2))
    ≠ map call_uri (api_calls (trace (execute plain (initial 0)).2)).
Proof.
  intros slash plain. split; [| split].
  - vm_compute. reflexivity.
  - vm_compute. reflexivity.
  - vm_compute. discriminate.
Qed.

(** * Further properties *)

(** ** The description and the dispatch *)

Lemma matches_branch_described resource operation :
  matches_branch resource operation = true ↔
  In (resource, operation) described_pairs.
Proof.
  split.
  - unfold matches_branch. intros H.
    destruct (resource =? "job") eqn:E1;
      [apply String.eqb_eq in E1 as ->
      | destruct (resource =? "instance") eqn:E2;
        [apply String.eqb_eq in E2 as ->
        | destruct (resource =? "build") eqn:E3;
          [apply String.eqb_eq in E3 as -> | discriminate H]]];
      cbn in H;
      repeat match type of H with
             | context [operation =? ?x] =>
                 let E := fresh "E" in
                 destruct (operation =? x) eqn:E;
                 [apply String.eqb_eq in E; subst operation; clear H;
                  vm_compute; tauto
                 | cbn in H]
             end;
      discriminate H.
  - intros H. vm_compute in H.
    repeat (destruct H as [H|H]; [inversion H; reflexivity |]).
    destruct H.
Qed.

(** ** One item, branch by branch *)

Section Item.

Context {W : Type} (h : Host W).

Ltac run :=
  cbv [fetch_response dispatch job_block instance_block build_block
       getNodeParameter getParams getFilters getCredentialsOf apiRequest
       parseXml set_responseData get_locals set_locals log lift outside throw
       when mbind M_bind mret M_ret];
  cbn.

Ltac host_cases :=
  repeat
    (cbn;
     match goal with
     | |- context [getCredentials h ?n] =>
         destruct (getCredentials h n) as [?|?] eqn:?
     | |- context [getNodeParameter_string h ?n ?i] =>
         destruct (getNodeParameter_string h n i) as [?|?] eqn:?
     | |- context [getNodeParameter_params h ?i] =>
         destruct (getNodeParameter_params h i) as [?|?] eqn:?
     | |- context [getNodeParameter_filters h ?i] =>
         destruct (getNodeParameter_filters h i) as [?|?] eqn:?
     | |- context [jenkinsApiRequest h ?c ?w0] =>
         destruct (jenkinsApiRequest h c w0) as [[?|?] ?] eqn:?
     | |- context [parseString h ?x ?b] =>
         destruct (parseString h x b) as [?|?] eqn:?
     | |- context [if ?x =? "" then _ else _] => destruct (x =? "")
     end).


(** What the statements before the push do, whatever the resource and the
    operation: their trace has the shape [item_trace_ok], and either they
    throw and leave the locals as they were, or no branch ran and the locals
    are as they were, or a request was made and what the host handed back is
    in [responseData]. *)
Lemma fetch_response_run resource operation i (s : store W exec_locals) :
  ∃ tr,
    trace (fetch_response h resource operation i s).2 = trace s ++ tr
    ∧ item_trace_ok resource operation i tr = true
    ∧ ((∃ e, (fetch_response h resource operation i s).1 = inl e
             ∧ locals (fetch_response h resource operation i s).2 = locals s)
       ∨ ((fetch_response h resource operation i s).1 = inr tt
          ∧ api_calls tr = []
          ∧ locals (fetch_response h resource operation i s).2 = locals s)
       ∨ (∃ v, (fetch_response h resource operation i s).1 = inr tt
               ∧ host_response h v
               ∧ locals (fetch_response h resource operation i s).2
                   = mkLocals (returnData (locals s)) v)).
Proof.
  destruct (matches_branch resource operation) eqn:Hm.
  - apply matches_branch_described in Hm. vm_compute in Hm.
    repeat (destruct Hm as [Hm|Hm];
            [inversion Hm; subst resource operation; clear Hm |]);
      [.. | destruct Hm].
    all: run; host_cases; cbn.
    all: eexists; split; [rewrite <- ?app_assoc; cbn [app]; reflexivity |].
    all: split; [cbn; rewrite ?Nat.eqb_refl; reflexivity |].
    all: first
      [ left; eexists; split; reflexivity
      | right; right; eexists; split; [reflexivity |];
        split; [| reflexivity];
        first [ left; eexists _, _, _; eassumption
              | right; eexists; eassumption ] ].
  - destruct (getCredentials h "JenkinsApi") as [e|c] eqn:Hc.
    + exists [EvGetCredentials "JenkinsApi"].
      run. rewrite Hc. cbn. repeat split. left. eexists. split; reflexivity.
    + rewrite (fetch_response_unmatched h _ _ _ _ _ Hm Hc). cbn.
      exists [EvGetCredentials "JenkinsApi"]. repeat split.
      right. left. repeat split.
Qed.

(** The same for the whole item: the push adds no host call; it appends the
    response, or throws when [push.apply] refuses an array, which then stays
    in [responseData]. *)
Lemma item_body_run resource operation i (s : store W exec_locals) :
  ∃ tr,
    trace (item_body h resource operation i s).2 = trace s ++ tr
    ∧ item_trace_ok resource operation i tr = true
    ∧ ((∃ e, (item_body h resource operation i s).1 = inl e
             ∧ locals (item_body h resource operation i s).2 = locals s)
       ∨ (∃ e v, (item_body h resource operation i s).1 = inl e
                 ∧ host_response h v
                 ∧ overflow h v = Some e
                 ∧ locals (item_body h resource operation i s).2
                     = mkLocals (returnData (locals s)) v)
       ∨ ((item_body h resource operation i s).1 = inr tt
          ∧ api_calls tr = []
          ∧ locals (item_body h resource operation i s).2
              = mkLocals
                  (returnData (locals s)
                   ++ response_items (responseData (locals s)))
                  (responseData (locals s)))
       ∨ (∃ v, (item_body h resource operation i s).1 = inr tt
               ∧ host_response h v
               ∧ locals (item_body h resource operation i s).2
                   = mkLocals (returnData (locals s) ++ response_items v) v)).
Proof.
  destruct (fetch_response_run resource operation i s)
    as (tr & T & Ok & Cases).
  exists tr. rewrite item_body_eq.
  destruct (fetch_response h resource operation i s) as [[e|[]] s1];
    simpl in *.
  - split; [exact T | split; [exact Ok |]].
    destruct Cases as [(e' & E & L)|[(E & _)|(v & E & _)]];
      try discriminate E.
    left. exists e. split; [reflexivity | exact L].
  - destruct (push_response_frame h s1) as (_ & Tp & _).
    split; [rewrite Tp; exact T | split; [exact Ok |]].
    rewrite push_response_eq.
    destruct Cases as [(e' & E & _)|[(_ & A & L)|(v & _ & Hv & L)]];
      [discriminate E | |]; rewrite L.
    + destruct (overflow h (responseData (locals s))) as [e|];
        simpl; rewrite ?L.
      * left. exists e. split; reflexivity.
      * right. right. left. repeat split. exact A.
    + simpl. destruct (overflow h v) as [e|] eqn:Ho; simpl; rewrite ?L.
      * right. left. exists e, v. repeat split; assumption.
      * right. right. right. exists v. repeat split. exact Hv.
Qed.

End Item.

(** ** Consequences for one item *)

Section ItemFacts.

Context {W : Type} (h : Host W).

Lemma reads_then_call_facts resource operation i (tr : list event) :
  reads_then_call resource operation i tr = true →
  (length (api_calls tr) ≤ 1)%nat
  ∧ (length (parse_calls tr) ≤ length (api_calls tr))%nat
  ∧ Forall (λ e, match e with
                 | EvGetNodeParameter n j =>
                     j = i ∧ shown_for resource operation n = true
                 | EvApiRequest _ | EvParseString _ _ => True
                 | _ => False
                 end) tr.
Proof.
  induction tr as [|e tr IH]; [intros _; simpl; repeat split; auto |].
  destruct e as [n j|name|c|x b|o]; simpl; try discriminate.
  - intros H. apply andb_prop in H as [H Hr]. apply andb_prop in H as [Hj Hs].
    apply Nat.eqb_eq in Hj. destruct (IH Hr) as (A & P & F).
    repeat split; auto.
  - destruct tr as [|e' tr']; [intros _; simpl; repeat split; auto |].
    destruct e' as [| | |x b|]; try discriminate.
    destruct b; [discriminate |].
    destruct tr'; [| discriminate].
    intros _. simpl. repeat split; auto.
Qed.

Lemma item_trace_ok_facts resource operation i (tr : list event) :
  item_trace_ok resource operation i tr = true →
  ∃ tr', tr = EvGetCredentials "JenkinsApi" :: tr'
         ∧ reads_then_call resource operation i tr' = true
         ∧ api_calls tr = api_calls tr'
         ∧ parse_calls tr = parse_calls tr'.
Proof.
  destruct tr as [|e tr']; [discriminate |].
  destruct e; try discriminate. simpl. intros H.
  apply andb_prop in H as [Hn Hr]. apply String.eqb_eq in Hn as ->.
  exists tr'. repeat split. exact Hr.
Qed.

(** The outcome of the [try] statement of one iteration. *)
Lemma iteration_eq resource operation i (s : store W exec_locals) :
  try_catch (item_body h resource operation i) (on_error h) s =
    match item_body h resource operation i s with
    | (inl e, s') =>
        if continueOnFail h then (inr tt, (push (error_item e) s').2)
        else (inl e, s')
    | (inr u, s') => (inr u, s')
    end.
Proof.
  unfold try_catch, on_error.
  destruct (item_body h resource operation i s) as [[e|u] s'];
    [destruct (continueOnFail h) |]; reflexivity.
Qed.

Lemma for_loop_S resource operation n i (s : store W exec_locals) :
  for_loop h resource operation (S n) i s =
    match try_catch (item_body h resource operation i) (on_error h) s with
    | (inl e, s') => (inl e, s')
    | (inr _, s') => for_loop h resource operation n (S i) s'
    end.
Proof. reflexivity. Qed.

End ItemFacts.

(** ** The whole run *)

Section Run.

Context {W : Type} (h : Host W).

Lemma push_locals v (s : store W exec_locals) :
  locals (push v s).2
    = mkLocals (returnData (locals s) ++ [v]) (responseData (locals s)).
Proof. reflexivity. Qed.

Lemma iteration_trace resource operation i (s : store W exec_locals) :
  trace (try_catch (item_body h resource operation i) (on_error h) s).2
    = trace (item_body h resource operation i s).2.
Proof.
  rewrite iteration_eq.
  destruct (item_body h resource operation i s) as [[e|u] s'];
    [destruct (continueOnFail h) |]; reflexivity.
Qed.

(** The trace of a loop over [n] items from index [i]: at most [n]
    requests, no more parses than requests, and every parameter read is at
    an index of the loop and of a parameter shown for the resource and
    operation. *)
Lemma for_loop_trace resource operation n :
  ∀ i (s : store W exec_locals),
    ∃ tr,
      trace (for_loop h resource operation n i s).2 = trace s ++ tr
      ∧ (length (api_calls tr) ≤ n)%nat
      ∧ (length (parse_calls tr) ≤ length (api_calls tr))%nat
      ∧ Forall (λ e, match e with
                     | EvGetNodeParameter name j =>
                         (i ≤ j < i + n)%nat
                         ∧ shown_for resource operation name = true
                     | EvRequest _ => False
                     | _ => True
                     end) tr.
Proof.
  induction n as [|n IH]; intros i s.
  - exists []. simpl. rewrite app_nil_r. repeat split; auto.
  - rewrite for_loop_S.
    pose proof (iteration_trace resource operation i s) as T.
    destruct (item_body_run h resource operation i s) as (tr1 & E1 & Ok & _).
    destruct (item_trace_ok_facts _ _ _ _ Ok) as (tr1' & -> & Rd & A1 & P1).
    destruct (reads_then_call_facts _ _ _ _ Rd) as (La & Lp & F1).
    assert (F1' : Forall (λ e, match e with
                               | EvGetNodeParameter name j =>
                                   (i ≤ j < i + S n)%nat
                                   ∧ shown_for resource operation name = true
                               | EvRequest _ => False
                               | _ => True
                               end) (EvGetCredentials "JenkinsApi" :: tr1')).
    { constructor; [exact I |].
      eapply Forall_impl; [exact F1 |].
      intros [name j| | | |]; simpl; try tauto.
      intros [-> Hs]. split; [lia | exact Hs]. }
    destruct (try_catch (item_body h resource operation i) (on_error h) s)
      as [[e|u] s1]; simpl in T.
    + exists (EvGetCredentials "JenkinsApi" :: tr1'). simpl.
      rewrite T, E1. repeat split; auto; simpl; lia.
    + destruct (IH (S i) s1) as (tr2 & E2 & La2 & Lp2 & F2).
      exists ((EvGetCredentials "JenkinsApi" :: tr1') ++ tr2).
      rewrite E2, T, E1, <- app_assoc.
      rewrite api_calls_app, parse_calls_app, !length_app. simpl.
      repeat split; [lia | lia |].
      apply (Forall_app_2 _ (EvGetCredentials "JenkinsApi" :: tr1') tr2);
        [exact F1' |].
      eapply Forall_impl; [exact F2 |].
      intros [name j| | | |]; simpl; try tauto.
      intros [Hj Hs]. split; [lia | exact Hs].
Qed.

Lemma for_loop_tolerant resource operation n :
  continueOnFail h = true →
  ∀ i (s : store W exec_locals),
    (for_loop h resource operation n i s).1 = inr tt.
Proof.
  intros Hc. induction n as [|n IH]; intros i s; [reflexivity |].
  rewrite for_loop_S, iteration_eq, Hc.
  destruct (item_body h resource operation i s) as [[e|[]] s1]; apply IH.
Qed.

(** When the host never hands back an array, every iteration that lets the
    loop go on appends exactly one item. *)
Lemma for_loop_one_each resource operation n :
  (∀ v, host_response h v → isArray v = false) →
  ∀ i (s s' : store W exec_locals) u,
    isArray (responseData (locals s)) = false →
    for_loop h resource operation n i s = (inr u, s') →
    length (returnData (locals s')) = length (returnData (locals s)) + n
    ∧ isArray (responseData (locals s')) = false.
Proof.
  intros Hh. induction n as [|n IH]; intros i s s' u Hs H.
  - inversion H; subst. split; [lia | exact Hs].
  - rewrite for_loop_S, iteration_eq in H.
    assert (Single : ∀ v, isArray v = false → length (response_items v) = 1)
      by (intros v Hv; destruct v; simpl in *; congruence).
    destruct (item_body_run h resource operation i s)
      as (tr & _ & _
          & [(e & E & L)|[(e & v & E & Hv & Ho & L)
                         |[(E & _ & L)|(v & E & Hv & L)]]]);
      destruct (item_body h resource operation i s) as [[e1|u1] s1];
      simpl in E, L; try discriminate E.
    + destruct (continueOnFail h); [| discriminate H].
      apply IH in H; rewrite push_locals, L in *; simpl; [| exact Hs].
      simpl in H. rewrite length_app in H. simpl in H.
      destruct H as [H1 H2]. split; [lia | exact H2].
    + exfalso. specialize (Hh v Hv). destruct v; simpl in *; discriminate.
    + apply IH in H; [| rewrite L; exact Hs].
      rewrite L in H. simpl in H. rewrite length_app, (Single _ Hs) in H.
      destruct H as [H1 H2]. split; [lia | exact H2].
    + apply IH in H; [| rewrite L; exact (Hh v Hv)].
      rewrite L in H. simpl in H.
      rewrite length_app, (Single _ (Hh v Hv)) in H.
      destruct H as [H1 H2]. split; [lia | exact H2].
Qed.

(** The trace of [execute] when [resource] or [operation] does not
    resolve. *)
Lemma execute_no_resource (w : W) e :
  getNodeParameter_string h "resource" 0 = inl e →
  execute h (initial w) =
    (inl e, mkStore w [EvGetNodeParameter "resource" 0] (mkLocals [] VUndefined)).
Proof.
  intros Hr. unfold execute, getNodeParameter, mbind, M_bind, log, lift.
  simpl. rewrite Hr. reflexivity.
Qed.

Lemma execute_no_operation (w : W) resource e :
  getNodeParameter_string h "resource" 0 = inr resource →
  getNodeParameter_string h "operation" 0 = inl e →
  execute h (initial w) =
    (inl e,
     mkStore w
       [EvGetNodeParameter "resource" 0; EvGetNodeParameter "operation" 0]
       (mkLocals [] VUndefined)).
Proof.
  intros Hr Ho. unfold execute, getNodeParameter, mbind, M_bind, log, lift.
  simpl. rewrite Hr. simpl. rewrite Ho. reflexivity.
Qed.

(** X8.  An execution never makes more requests than it has input items,
    and never parses more responses than it has made requests. *)
Theorem execute_requests_bounded (w : W) :
  (length (api_calls (trace (execute h (initial w)).2))
   ≤ length (getInputData h))%nat
  ∧ (length (parse_calls (trace (execute h (initial w)).2))
     ≤ length (api_calls (trace (execute h (initial w)).2)))%nat.
Proof.
  destruct (getNodeParameter_string h "resource" 0) as [e|resource] eqn:Hr.
  { rewrite (execute_no_resource w e Hr). simpl. lia. }
  destruct (getNodeParameter_string h "operation" 0) as [e|operation] eqn:Ho.
  { rewrite (execute_no_operation w resource e Hr Ho). simpl. lia. }
  rewrite (execute_eq h w resource operation Hr Ho).
  match goal with
  | |- context [for_loop h resource operation ?n ?i ?s] =>
      destruct (for_loop_trace resource operation n i s)
        as (tr & T & La & Lp & _);
      destruct (for_loop h resource operation n i s) as [[e|u] s1]
  end; simpl in *; rewrite T; simpl; lia.
Qed.

(** X9.  Apart from [resource] and [operation], read first and at index 0,
    an execution reads parameters only at the indices of its input items, and
    only parameters that the description declares and shows for the resolved
    resource and operation; it never calls [helpers.request]. *)
Theorem execute_reads_shown (w : W) resource operation :
  getNodeParameter_string h "resource" 0 = inr resource →
  getNodeParameter_string h "operation" 0 = inr operation →
  ∃ tr,
    trace (execute h (initial w)).2
      = EvGetNodeParameter "resource" 0 :: EvGetNodeParameter "operation" 0
        :: tr
    ∧ Forall (λ e, match e with
                   | EvGetNodeParameter name j =>
                       (j < length (getInputData h))%nat
                       ∧ shown_for resource operation name = true
                   | EvRequest _ => False
                   | _ => True
                   end) tr.
Proof.
  intros Hr Ho. rewrite (execute_eq h w resource operation Hr Ho).
  match goal with
  | |- context [for_loop h resource operation ?n ?i ?s] =>
      destruct (for_loop_trace resource operation n i s)
        as (tr & T & _ & _ & F);
      destruct (for_loop h resource operation n i s) as [[e|u] s1]
  end; simpl in *; exists tr; (split; [exact T |]);
    (eapply Forall_impl; [exact F |]);
    intros [name j| | | |]; simpl; try tauto;
    intros [Hj Hs]; (split; [lia | exact Hs]).
Qed.

(** X6.  With [continueOnFail] on, and [resource] and [operation] resolved,
    [execute] always returns: no error of an item escapes it. *)
Theorem execute_tolerant_returns (w : W) resource operation :
  continueOnFail h = true →
  getNodeParameter_string h "resource" 0 = inr resource →
  getNodeParameter_string h "operation" 0 = inr operation →
  ∃ s', execute h (initial w)
        = (inr [helpers_returnJsonArray h (returnData (locals s'))], s').
Proof.
  intros Hc Hr Ho. rewrite (execute_eq h w resource operation Hr Ho).
  match goal with
  | |- context [for_loop h resource operation ?n ?i ?s] =>
      pose proof (for_loop_tolerant resource operation n Hc i s) as T;
      destruct (for_loop h resource operation n i s) as [[e|u] s1]
  end; [discriminate T |].
  exists s1. reflexivity.
Qed.

(** X11.  When neither the transport nor the parser ever hands back an
    array, an execution that returns has appended exactly one output item
    for every input item, whether an item succeeded, matched no branch or
    failed under [continueOnFail]. *)
Theorem execute_one_item_each (w : W) out (s' : store W exec_locals) :
  (∀ v, host_response h v → isArray v = false) →
  execute h (initial w) = (inr out, s') →
  length (returnData (locals s')) = length (getInputData h)
  ∧ out = [helpers_returnJsonArray h (returnData (locals s'))].
Proof.
  intros Hh H.
  destruct (getNodeParameter_string h "resource" 0) as [e|resource] eqn:Hr.
  { rewrite (execute_no_resource w e Hr) in H. discriminate H. }
  destruct (getNodeParameter_string h "operation" 0) as [e|operation] eqn:Ho.
  { rewrite (execute_no_operation w resource e Hr Ho) in H. discriminate H. }
  rewrite (execute_eq h w resource operation Hr Ho) in H.
  destruct (for_loop h resource operation _ _ _) as [[e|u] s1] eqn:L;
    [discriminate H |].
  inversion H; subst.
  apply (for_loop_one_each resource operation _ Hh) in L as [Len _];
    [| reflexivity].
  split; [exact Len | reflexivity].
Qed.

End Run.

(** ** The job branches and the build branch *)

Section Branches.

Context {W : Type} (h : Host W).

Local Arguments String.append !_ _ / : simpl nomatch.

Ltac run :=
  cbv [item_body fetch_response dispatch job_block instance_block build_block
       getNodeParameter getParams getFilters getCredentialsOf apiRequest
       parseXml set_responseData get_locals set_locals log lift outside throw
       when mbind M_bind mret M_ret];
  cbn.

(** X1.  A trigger item reads the token and then the job at its own index
    and issues GET [{baseUrl}/job/{job}/build?token={token}] without query,
    headers or body; it throws what the transport throws, with the locals
    untouched, and otherwise takes the answer as its response, which it
    appends unless [push.apply] refuses it. *)
Theorem trigger_request i (s : store W exec_locals) c token job :
  getCredentials h "JenkinsApi" = inr c →
  getNodeParameter_string h "token" i = inr token →
  getNodeParameter_string h "job" i = inr job →
  trace (item_body h "job" "trigger" i s).2
    = trace s
      ++ [EvGetCredentials "JenkinsApi";
          EvGetNodeParameter "token" i; EvGetNodeParameter "job" i;
          EvApiRequest
            (mkCall "get"
               (baseUrl c +:+ "/job/" +:+ job +:+ "/build?token=" +:+ token)
               VUndefined VUndefined VUndefined)]
  ∧ (∀ e w', jenkinsApiRequest h (trigger_call (baseUrl c) job token) (world s)
               = (inl e, w') →
       (item_body h "job" "trigger" i s).1 = inl e
       ∧ locals (item_body h "job" "trigger" i s).2 = locals s)
  ∧ (∀ v w', jenkinsApiRequest h (trigger_call (baseUrl c) job token) (world s)
               = (inr v, w') →
       overflow h v = None →
       (item_body h "job" "trigger" i s).1 = inr tt
       ∧ locals (item_body h "job" "trigger" i s).2
           = mkLocals (returnData (locals s) ++ response_items v) v)
  ∧ (∀ v w' e, jenkinsApiRequest h (trigger_call (baseUrl c) job token)
                 (world s) = (inr v, w') →
       overflow h v = Some e →
       (item_body h "job" "trigger" i s).1 = inl e
       ∧ locals (item_body h "job" "trigger" i s).2
           = mkLocals (returnData (locals s)) v).
Proof.
  intros Hc Ht Hj.
  pose proof (fetch_trigger h i s c token job Hc Ht Hj) as F.
  destruct (request_facts h _ _ _ _ _ _ F) as (T & Err & _).
  split; [exact T | split; [| split]].
  - intros e w' H. destruct (Err e w' H) as (E & _ & L). split; assumption.
  - intros v w' H Ho. rewrite item_body_eq, F, H. simpl.
    rewrite push_response_eq. simpl. rewrite Ho. split; reflexivity.
  - intros v w' e H Ho. rewrite item_body_eq, F, H. simpl.
    rewrite push_response_eq. simpl. rewrite Ho. split; reflexivity.
Qed.

(** X17.  A trigger item whose token does not resolve throws that error
    right after the credentials: the job is not read and no request is
    made. *)
Theorem trigger_without_token i (s : store W exec_locals) c e :
  getCredentials h "JenkinsApi" = inr c →
  getNodeParameter_string h "token" i = inl e →
  item_body h "job" "trigger" i s =
    (inl e,
     mkStore (world s)
       (trace s ++ [EvGetCredentials "JenkinsApi"; EvGetNodeParameter "token" i])
       (locals s)).
Proof.
  intros Hc Ht. run. rewrite Hc. cbn. rewrite Ht. cbn.
  rewrite <- ?app_assoc. reflexivity.
Qed.

(** X2.  A copy item reads the job and the new name and hands
    [jenkinsApiRequest] POST [{baseUrl}/createItem] with the query
    [{name, mode: 'copy', from}] made of exactly these three keys, without
    headers or body; the error of this call is the error of the item, and
    its answer the response of the item. *)
Theorem copy_request i (s : store W exec_locals) c job name :
  getCredentials h "JenkinsApi" = inr c →
  getNodeParameter_string h "job" i = inr job →
  getNodeParameter_string h "newJob" i = inr name →
  ∃ q,
    trace (item_body h "job" "copy" i s).2
      = trace s
        ++ [EvGetCredentials "JenkinsApi";
            EvGetNodeParameter "job" i; EvGetNodeParameter "newJob" i;
            EvApiRequest
              (mkCall "post" (baseUrl c +:+ "/createItem") (VObject q)
                 VUndefined VUndefined)]
    ∧ q !! "name" = Some (VString name)
    ∧ q !! "mode" = Some (VString "copy")
    ∧ q !! "from" = Some (VString job)
    ∧ dom q = {[ "name"; "mode"; "from" ]}
    ∧ (∀ e w',
         jenkinsApiRequest h
           (mkCall "post" (baseUrl c +:+ "/createItem") (VObject q)
              VUndefined VUndefined)
           (world s) = (inl e, w') →
         (item_body h "job" "copy" i s).1 = inl e
         ∧ world (item_body h "job" "copy" i s).2 = w'
         ∧ locals (item_body h "job" "copy" i s).2 = locals s)
    ∧ (∀ v w',
         jenkinsApiRequest h
           (mkCall "post" (baseUrl c +:+ "/createItem") (VObject q)
              VUndefined VUndefined)
           (world s) = (inr v, w') →
         world (item_body h "job" "copy" i s).2 = w'
         ∧ responseData (locals (item_body h "job" "copy" i s).2) = v
         ∧ (overflow h v = None →
            (item_body h "job" "copy" i s).1 = inr tt
            ∧ returnData (locals (item_body h "job" "copy" i s).2)
                = returnData (locals s) ++ response_items v)).
Proof.
  intros Hc Hj Hn.
  destruct (request_facts h _ _ _ _ _ _ (fetch_copy h i s c job name Hc Hj Hn))
    as (T & Err & Ok).
  eexists. split; [exact T |].
  split; [reflexivity |]. split; [reflexivity |]. split; [reflexivity |].
  split; [rewrite !dom_insert_L, dom_empty_L; set_solver |].
  split; [exact Err |].
  intros v w' H. destruct (Ok v w' H) as (Hw & Hr & Hp & _).
  repeat split; [exact Hw | exact Hr | apply Hp; assumption ..].
Qed.

(** X3.  A create item reads the new name and then the XML and hands
    [jenkinsApiRequest] POST [{baseUrl}/createItem] with the query [{name}],
    the header [content-type: application/xml] and the XML text, as it was
    given, in the body position; the error of this call is the error of the
    item, and its answer the response of the item. *)
Theorem create_request i (s : store W exec_locals) c name xml :
  getCredentials h "JenkinsApi" = inr c →
  getNodeParameter_string h "newJob" i = inr name →
  getNodeParameter_string h "xml" i = inr xml →
  trace (item_body h "job" "create" i s).2
    = trace s
      ++ [EvGetCredentials "JenkinsApi";
          EvGetNodeParameter "newJob" i; EvGetNodeParameter "xml" i;
          EvApiRequest
            (mkCall "post" (baseUrl c +:+ "/createItem")
               (VObject {[ "name" := VString name ]})
               (VObject {[ "content-type" := VString "application/xml" ]})
               (VString xml))]
  ∧ (∀ e w',
       jenkinsApiRequest h (create_call (baseUrl c) name xml) (world s)
         = (inl e, w') →
       (item_body h "job" "create" i s).1 = inl e
       ∧ world (item_body h "job" "create" i s).2 = w'
       ∧ locals (item_body h "job" "create" i s).2 = locals s)
  ∧ (∀ v w',
       jenkinsApiRequest h (create_call (baseUrl c) name xml) (world s)
         = (inr v, w') →
       world (item_body h "job" "create" i s).2 = w'
       ∧ responseData (locals (item_body h "job" "create" i s).2) = v
       ∧ (overflow h v = None →
          (item_body h "job" "create" i s).1 = inr tt
          ∧ returnData (locals (item_body h "job" "create" i s).2)
              = returnData (locals s) ++ response_items v)).
Proof.
  intros Hc Hn Hx.
  destruct (request_facts h _ _ _ _ _ _
              (fetch_create h i s c name xml Hc Hn Hx)) as (T & Err & Ok).
  split; [exact T | split; [exact Err |]].
  intros v w' H. destruct (Ok v w' H) as (Hw & Hr & Hp & _).
  repeat split; [exact Hw | exact Hr | apply Hp; assumption ..].
Qed.

(** X15.  Whatever the filters, the query a build:getAll item hands
    [jenkinsApiRequest] has exactly the keys depth, tree, xpath and exclude;
    the three strings are [undefined] when unset, and depth is never falsy:
    an unset depth and the depths 0, -0 and NaN are sent as 1, every other
    number as it is.  The error of the call is the error of the item, and
    the text it returns is what is parsed. *)
Theorem getAll_query_depth i (s : store W exec_locals) c f :
  getCredentials h "JenkinsApi" = inr c →
  getNodeParameter_filters h i = inr f →
  ∃ q d,
    api_calls (trace (item_body h "build" "build:getAll" i s).2)
      = api_calls (trace s)
        ++ [mkCall "get" (baseUrl c +:+ "/api/xml") (VObject q)
              VUndefined VUndefined]
    ∧ dom q = {[ "depth"; "tree"; "xpath"; "exclude" ]}
    ∧ q !! "tree" = Some (of_optional_string (filters_tree f))
    ∧ q !! "xpath" = Some (of_optional_string (filters_xpath f))
    ∧ q !! "exclude" = Some (of_optional_string (filters_exclude f))
    ∧ q !! "depth" = Some (VNumber d)
    ∧ truthy d = true
    ∧ (filters_depth f = None → d = Int 1)
    ∧ (∀ d0, filters_depth f = Some d0 → truthy d0 = false → d = Int 1)
    ∧ (∀ d0, filters_depth f = Some d0 → truthy d0 = true → d = d0)
    ∧ (∀ e w',
         jenkinsApiRequest h
           (mkCall "get" (baseUrl c +:+ "/api/xml") (VObject q)
              VUndefined VUndefined)
           (world s) = (inl e, w') →
         (item_body h "build" "build:getAll" i s).1 = inl e
         ∧ world (item_body h "build" "build:getAll" i s).2 = w'
         ∧ locals (item_body h "build" "build:getAll" i s).2 = locals s)
    ∧ (∀ response w',
         jenkinsApiRequest h
           (mkCall "get" (baseUrl c +:+ "/api/xml") (VObject q)
              VUndefined VUndefined)
           (world s) = (inr response, w') →
         world (item_body h "build" "build:getAll" i s).2 = w'
         ∧ parse_calls (trace (item_body h "build" "build:getAll" i s).2)
             = parse_calls (trace s) ++ [(response, false)]).
Proof.
  intros Hc Hf.
  pose proof (item_getAll h i s c f Hc Hf) as E.
  unfold getAll_call, getAll_query in E.
  eexists _, (effective_depth (filters_depth f)).
  split; [| split; [| split; [| split; [| split; [| split; [| split;
    [| split; [| split; [| split; [| split]]]]]]]]]].
  - rewrite E.
    destruct (jenkinsApiRequest h _ (world s)) as [[e|response] w'];
      [| destruct (parseString h response false)].
    3: match goal with
       | |- context [push_response h ?s0] =>
           destruct (push_response_frame h s0) as (_ & -> & _)
       end.
    all: simpl; rewrite api_calls_app; simpl; reflexivity.
  - rewrite !dom_insert_L, dom_empty_L. set_solver.
  - reflexivity.
  - reflexivity.
  - reflexivity.
  - reflexivity.
  - unfold effective_depth. destruct (filters_depth f) as [d|]; [| reflexivity].
    destruct (truthy d) eqn:Td; [exact Td | reflexivity].
  - intros ->. reflexivity.
  - intros d0 -> Td. unfold effective_depth. rewrite Td. reflexivity.
  - intros d0 -> Td. unfold effective_depth. rewrite Td. reflexivity.
  - intros e w' H. rewrite E, H. repeat split.
  - intros response w' H. rewrite E, H.
    destruct (parseString h response false) as [err|data].
    + simpl. rewrite parse_calls_app. split; reflexivity.
    + match goal with
      | |- context [push_response h ?s0] =>
          destruct (push_response_frame h s0) as (-> & -> & _)
      end.
      simpl. rewrite parse_calls_app. split; reflexivity.
Qed.

(** X16.  When the request of a build:getAll item throws, the item throws
    that error with the locals untouched and [parseString] is not called. *)
Theorem getAll_transport_error i (s : store W exec_locals) c f e w' :
  getCredentials h "JenkinsApi" = inr c →
  getNodeParameter_filters h i = inr f →
  jenkinsApiRequest h
    (mkCall "get" (baseUrl c +:+ "/api/xml") (getAll_query f)
       VUndefined VUndefined)
    (world s) = (inl e, w') →
  (item_body h "build" "build:getAll" i s).1 = inl e
  ∧ locals (item_body h "build" "build:getAll" i s).2 = locals s
  ∧ parse_calls (trace (item_body h "build" "build:getAll" i s).2)
      = parse_calls (trace s).
Proof.
  intros Hc Hf Hreq.
  rewrite (item_getAll h i s c f Hc Hf). unfold getAll_call. rewrite Hreq.
  simpl. repeat split. rewrite parse_calls_app. simpl.
  apply List.app_nil_r.
Qed.

(** An item without credentials, whatever the resource and operation. *)
Lemma item_without_credentials resource operation i (s : store W exec_locals) e :
  getCredentials h "JenkinsApi" = inl e →
  item_body h resource operation i s =
    (inl e,
     mkStore (world s) (trace s ++ [EvGetCredentials "JenkinsApi"]) (locals s)).
Proof.
  intros Hc.
  cbv [item_body fetch_response getCredentialsOf mbind M_bind log lift].
  cbn. rewrite Hc. reflexivity.
Qed.

End Branches.

(** ** Edge cases of a run *)

Section Edges.

Context {W : Type} (h : Host W).

(** X4.  Over no input items [execute] still reads [resource] and
    [operation] at index 0; it then returns one empty output without asking
    for the credentials and without any request. *)
Theorem execute_no_items (w : W) resource operation :
  getInputData h = [] →
  getNodeParameter_string h "resource" 0 = inr resource →
  getNodeParameter_string h "operation" 0 = inr operation →
  execute h (initial w) =
    (inr [helpers_returnJsonArray h []],
     mkStore w
       [EvGetNodeParameter "resource" 0; EvGetNodeParameter "operation" 0]
       (mkLocals [] VUndefined)).
Proof.
  intros Hi Hr Ho. rewrite (execute_eq h w resource operation Hr Ho), Hi.
  reflexivity.
Qed.

(** X5.  [resource] and [operation] are read outside the [try]: when one of
    them does not resolve, [execute] throws that error whatever
    [continueOnFail] says and however many items there are, before any
    credentials are asked for, and when it is [resource] that fails,
    [operation] is not read either. *)
Theorem execute_unresolved_dispatch (w : W) e :
  (getNodeParameter_string h "resource" 0 = inl e →
   execute h (initial w) =
     (inl e,
      mkStore w [EvGetNodeParameter "resource" 0] (mkLocals [] VUndefined)))
  ∧ (∀ resource,
       getNodeParameter_string h "resource" 0 = inr resource →
       getNodeParameter_string h "operation" 0 = inl e →
       execute h (initial w) =
         (inl e,
          mkStore w
            [EvGetNodeParameter "resource" 0; EvGetNodeParameter "operation" 0]
            (mkLocals [] VUndefined))).
Proof.
  split.
  - apply execute_no_resource.
  - intros resource. apply execute_no_operation.
Qed.

Lemma for_loop_without_credentials resource operation e n :
  getCredentials h "JenkinsApi" = inl e →
  continueOnFail h = true →
  ∀ i (w : W) tr rd v,
    for_loop h resource operation n i (mkStore w tr (mkLocals rd v)) =
      (inr tt,
       mkStore w (tr ++ replicate n (EvGetCredentials "JenkinsApi"))
         (mkLocals (rd ++ replicate n (error_item e)) v)).
Proof.
  intros Hc Hf. induction n as [|n IH]; intros i w tr rd v.
  - simpl. rewrite !app_nil_r. reflexivity.
  - rewrite (for_loop_tolerate h _ _ _ _ _ _ _ Hf
               (item_without_credentials h _ _ _ _ _ Hc)).
    unfold push, mbind, M_bind, get_locals, set_locals. simpl.
    rewrite IH. rewrite <- !app_assoc. reflexivity.
Qed.

(** X7.  When the credentials do not resolve, no item reads a parameter or
    makes a request, whatever the resource and operation.  With
    [continueOnFail] on the output is one [{error: message}] for every
    input item; with it off [execute] throws the error at the first
    item. *)
Theorem execute_without_credentials (w : W) resource operation e :
  getNodeParameter_string h "resource" 0 = inr resource →
  getNodeParameter_string h "operation" 0 = inr operation →
  getCredentials h "JenkinsApi" = inl e →
  (continueOnFail h = true →
   execute h (initial w) =
     (inr [helpers_returnJsonArray h
             (replicate (length (getInputData h)) (error_item e))],
      mkStore w
        ([EvGetNodeParameter "resource" 0; EvGetNodeParameter "operation" 0]
         ++ replicate (length (getInputData h))
              (EvGetCredentials "JenkinsApi"))
        (mkLocals (replicate (length (getInputData h)) (error_item e))
           VUndefined)))
  ∧ (continueOnFail h = false →
     getInputData h ≠ [] →
     execute h (initial w) =
       (inl e,
        mkStore w
          [EvGetNodeParameter "resource" 0; EvGetNodeParameter "operation" 0;
           EvGetCredentials "JenkinsApi"]
          (mkLocals [] VUndefined))).
Proof.
  intros Hr Ho Hc. split.
  - intros Hf. rewrite (execute_eq h w resource operation Hr Ho).
    rewrite (for_loop_without_credentials _ _ _ _ Hc Hf). reflexivity.
  - intros Hf Hi. rewrite (execute_eq h w resource operation Hr Ho).
    destruct (getInputData h) as [|x items]; [contradiction |].
    cbn [length].
    rewrite (for_loop_abort h _ _ _ _ _ _ _ Hf
               (item_without_credentials h _ _ _ _ _ Hc)).
    reflexivity.
Qed.

(** X10.  With [continueOnFail] on, an item that throws contributes
    exactly its [{error: message}]: nothing else is appended, and the loop
    goes on from the world, the trace and the [responseData] the item left.
    That [responseData] is the value it had before the item, unless the
    item threw while appending an array the host had answered, which
    [push.apply] refused with the error thrown: then it is that array. *)
Theorem failed_item_tolerated resource operation i
    (s s1 : store W exec_locals) e :
  continueOnFail h = true →
  item_body h resource operation i s = (inl e, s1) →
  try_catch (item_body h resource operation i) (on_error h) s =
    (inr tt,
     mkStore (world s1) (trace s1)
       (mkLocals (returnData (locals s) ++ [error_item e])
          (responseData (locals s1))))
  ∧ (responseData (locals s1) = responseData (locals s)
     ∨ (host_response h (responseData (locals s1))
        ∧ overflow h (responseData (locals s1)) = Some e)).
Proof.
  intros Hf H. rewrite iteration_eq, H, Hf.
  pose proof (item_body_throw h _ _ _ _ _ _ H) as K.
  split.
  - unfold push, mbind, M_bind, get_locals, set_locals. simpl.
    rewrite K. reflexivity.
  - destruct (item_body_run h resource operation i s)
      as (tr & _ & _ & [(e' & _ & L)|[(e' & v & E & Hh & Ho & L)
                                     |[(E & _)|(v & E & _)]]]);
      rewrite H in *; simpl in *; try discriminate E.
    + left. rewrite L. reflexivity.
    + right. inversion E; subst e'. rewrite L. simpl. split; assumption.
Qed.

(** X21.  Every item, whatever the resource and operation, asks for the
    JenkinsApi credentials first, then reads parameters, all at its own index
    and all shown by the description for this resource and operation, then
    makes at most one request, and calls [parseString] at most once, only
    after a request and with [explicitArray] false. *)
Theorem item_trace_shape resource operation i (s : store W exec_locals) :
  ∃ tr,
    trace (item_body h resource operation i s).2 = trace s ++ tr
    ∧ item_trace_ok resource operation i tr = true.
Proof.
  destruct (item_body_run h resource operation i s) as (tr & E & Ok & _).
  exists tr. split; assumption.
Qed.

(** One trigger item of a loop, under the handler. *)
Lemma trigger_iteration c token job i (s : store W exec_locals) :
  getCredentials h "JenkinsApi" = inr c →
  getNodeParameter_string h "token" i = inr token →
  getNodeParameter_string h "job" i = inr job →
  let call := trigger_call (baseUrl c) job token in
  let r := try_catch (item_body h "job" "trigger" i) (on_error h) s in
  api_calls (trace r.2) = api_calls (trace s) ++ [call]
  ∧ ((∃ e, r.1 = inl e ∧ continueOnFail h = false)
     ∨ (∃ u, r.1 = inr u
             ∧ (world r.2, returnData (locals r.2))
               = request_outcome h (world s, returnData (locals s)) call)).
Proof.
  intros Hc Ht Hj call r. subst r.
  rewrite iteration_eq, item_body_eq, (fetch_trigger h i s c _ _ Hc Ht Hj).
  fold call. unfold fetched, request_outcome. simpl.
  destruct (jenkinsApiRequest h call (world s)) as [[e|v] w'].
  - destruct (continueOnFail h); simpl; rewrite api_calls_app; simpl;
      rewrite <- ?app_assoc; (split; [reflexivity |]).
    + right. eexists. split; reflexivity.
    + left. eexists. split; reflexivity.
  - rewrite push_response_eq. simpl.
    destruct (overflow h v) as [e|].
    + destruct (continueOnFail h); simpl; rewrite api_calls_app; simpl;
        rewrite <- ?app_assoc; (split; [reflexivity |]).
      * right. eexists. split; reflexivity.
      * left. eexists. split; reflexivity.
    + simpl. rewrite api_calls_app; simpl.
      rewrite <- ?app_assoc. split; [reflexivity |].
      right. eexists. split; reflexivity.
Qed.

(** The requests of a loop of trigger items whose parameters all resolve. *)
Lemma trigger_loop c (token job : nat → string) n :
  getCredentials h "JenkinsApi" = inr c →
  (∀ i, getNodeParameter_string h "token" i = inr (token i)) →
  (∀ i, getNodeParameter_string h "job" i = inr (job i)) →
  ∀ i (s : store W exec_locals),
    (continueOnFail h = true
     ∨ ∃ u, (for_loop h "job" "trigger" n i s).1 = inr u) →
    let calls := map (λ j, trigger_call (baseUrl c) (job j) (token j))
                   (seq i n) in
    api_calls (trace (for_loop h "job" "trigger" n i s).2)
      = api_calls (trace s) ++ calls
    ∧ (world (for_loop h "job" "trigger" n i s).2,
       returnData (locals (for_loop h "job" "trigger" n i s).2))
      = foldl (request_outcome h) (world s, returnData (locals s)) calls.
Proof.
  intros Hc Ht Hj. induction n as [|n IH]; intros i s Hok.
  - simpl. rewrite app_nil_r. split; reflexivity.
  - rewrite for_loop_S in *.
    destruct (trigger_iteration c _ _ i s Hc (Ht i) (Hj i)) as (T & O).
    cbv zeta in T, O.
    destruct (try_catch (item_body h "job" "trigger" i) (on_error h) s)
      as [[e|u] s1]; simpl in *.
    + exfalso. destruct O as [(e' & _ & Hf)|(u & E & _)]; [| discriminate E].
      destruct Hok as [Hok|[u Hok]]; [congruence | discriminate Hok].
    + destruct O as [(e' & E & _)|(u' & _ & O)]; [discriminate E |].
      destruct (IH (S i) s1 Hok) as (T1 & O1). cbv zeta in T1, O1.
      rewrite T1, O1, T, O, <- app_assoc. split; reflexivity.
Qed.

(** X19.  In an execution of the trigger operation whose parameters all
    resolve, which has [continueOnFail] on or returns, the requests are
    exactly one per input item, in the order of the items, each built from
    the job and token read at the index of its item; each is handed to
    [jenkinsApiRequest] in the world the previous one left, and the items
    returned are, request after request, what its answer leaves. *)
Theorem trigger_requests_in_order (w : W) c (token job : nat → string) :
  getNodeParameter_string h "resource" 0 = inr "job" →
  getNodeParameter_string h "operation" 0 = inr "trigger" →
  getCredentials h "JenkinsApi" = inr c →
  (∀ i, getNodeParameter_string h "token" i = inr (token i)) →
  (∀ i, getNodeParameter_string h "job" i = inr (job i)) →
  (continueOnFail h = true ∨ ∃ out, (execute h (initial w)).1 = inr out) →
  api_calls (trace (execute h (initial w)).2)
    = map (λ j, trigger_call (baseUrl c) (job j) (token j))
        (seq 0 (length (getInputData h)))
  ∧ (world (execute h (initial w)).2,
     returnData (locals (execute h (initial w)).2))
    = foldl (request_outcome h) (w, [])
        (map (λ j, trigger_call (baseUrl c) (job j) (token j))
           (seq 0 (length (getInputData h)))).
Proof.
  intros Hr Ho Hc Ht Hj Hok.
  rewrite (execute_eq h w "job" "trigger" Hr Ho) in *.
  match goal with
  | |- context [for_loop h "job" "trigger" ?n ?i ?s] =>
      pose proof (trigger_loop c token job n Hc Ht Hj i s) as L;
      destruct (for_loop h "job" "trigger" n i s) as [[e|u] s1]
  end; simpl in *.
  - apply L. destruct Hok as [Hok|[out Hok]]; [left; exact Hok | discriminate Hok].
  - apply L. right. exists u. reflexivity.
Qed.

End Edges.


(** ** The fold of the trigger parameters *)

Local Set Warnings "-clear-no-such-hyp".

(** X12.  Folding a list of parameters that continues another gives the
    mapping of the continuation with the entries of the first list under
    the names the continuation does not mention. *)
Theorem reduce_params_app (l1 l2 : list param) :
  reduce_params (l1 ++ l2) = reduce_params l2 ∪ reduce_params l1.
Proof.
  apply map_eq. intros name.
  rewrite lookup_union, !reduce_params_lookup, last_value_app.
  destruct (name =? "__proto__"); [reflexivity |].
  destruct (last_value name l2), (last_value name l1); reflexivity.
Qed.

Lemma foldl_params_dom (params : list param) :
  ∀ acc : gmap string value,
    dom (foldl (λ body p, assign body (param_name p) (param_value p))
           acc params)
    = dom acc ∪ (list_to_set (map param_name params) ∖ {[ "__proto__" ]}).
Proof.
  induction params as [|p rest IH]; intros acc; simpl.
  - set_solver.
  - rewrite IH. unfold assign.
    destruct (String.eqb_spec (param_name p) "__proto__") as [E|E].
    + rewrite E. set_solver.
    + rewrite dom_insert_L. set_solver.
Qed.

Lemma foldl_params_size (params : list param) :
  ∀ acc : gmap string value,
    (size (foldl (λ body p, assign body (param_name p) (param_value p))
            acc params)
     ≤ size acc + length params)%nat.
Proof.
  induction params as [|p rest IH]; intros acc; simpl; [lia |].
  etransitivity; [apply IH |]. unfold assign.
  destruct (param_name p =? "__proto__"); [lia |].
  destruct (acc !! param_name p) eqn:E.
  - rewrite map_size_insert_Some; [lia | rewrite E; eauto].
  - rewrite map_size_insert_None; [lia | exact E].
Qed.

(** X13.  The body of triggerParams has one key for every distinct name of
    the list other than [__proto__], which never becomes a key: never more
    keys than the list has entries, and as many when the names are unique
    and none is [__proto__]. *)
Theorem reduce_params_keys (params : list param) :
  dom (reduce_params params)
    = list_to_set (map param_name params) ∖ {[ "__proto__" ]}
  ∧ (size (reduce_params params) ≤ length params)%nat
  ∧ (NoDup (map param_name params) →
     "__proto__" ∉ map param_name params →
     size (reduce_params params) = length params).
Proof.
  assert (D : dom (reduce_params params)
              = list_to_set (map param_name params) ∖ {[ "__proto__" ]}).
  { unfold reduce_params. rewrite foldl_params_dom. set_solver. }
  split; [exact D | split].
  - unfold reduce_params.
    etransitivity; [apply foldl_params_size |]. rewrite map_size_empty. lia.
  - intros Hnd Hp. rewrite <- size_dom, D.
    assert (E : list_to_set (map param_name params) ∖ {[ "__proto__" ]}
                = (list_to_set (map param_name params) : gset string)).
    { apply set_eq. intros x. rewrite elem_of_difference, elem_of_singleton,
        elem_of_list_to_set.
      split; [intros [? _]; assumption |].
      intros Hx. split; [assumption |]. intros ->. contradiction. }
    rewrite E, (size_list_to_set _ Hnd). apply length_map.
Qed.

(** X14.  When the names are unique the order of the parameters does not
    matter: any rearrangement of the list folds into the same body. *)
Theorem reduce_params_permutation (l1 l2 : list param) :
  NoDup (map param_name l1) →
  l1 ≡ₚ l2 →
  reduce_params l1 = reduce_params l2.
Proof.
  intros Hnd Hp.
  assert (Hnd2 : NoDup (map param_name l2))
    by (rewrite <- Hp; exact Hnd).
  apply map_eq. intros name. rewrite !reduce_params_lookup.
  destruct (name =? "__proto__"); [reflexivity |]. f_equal.
  destruct (last_value name l1) as [v|] eqn:E1.
  - symmetry. apply elem_of_last_value; [exact Hnd2 |].
    rewrite <- Hp. apply last_value_elem_of, E1.
  - destruct (last_value name l2) as [v|] eqn:E2; [| reflexivity].
    apply last_value_elem_of in E2. rewrite <- Hp in E2.
    rewrite (elem_of_last_value _ _ _ Hnd E2) in E1. discriminate E1.
Qed.

(** ** Runs of the sample hosts *)

Lemma reduce_params_keys_witness :
  size (reduce_params [mkParam "branch" "main"; mkParam "target" "x86"]) = 2.
Proof.
  apply (proj2 (proj2 (reduce_params_keys
                         [mkParam "branch" "main"; mkParam "target" "x86"]))).
  - apply (bool_decide_unpack _). vm_compute. exact I.
  - apply (bool_decide_unpack _). vm_compute. exact I.
Defined.

Lemma reduce_params_permutation_witness :
  reduce_params [mkParam "branch" "main"; mkParam "target" "x86"]
    = reduce_params [mkParam "target" "x86"; mkParam "branch" "main"].
Proof.
  apply reduce_params_permutation.
  - apply (bool_decide_unpack _). vm_compute. exact I.
  - apply Permutation_swap.
Defined.

Lemma execute_reads_shown_witness :
  let h := sample_host 2 false "http://ci" "job" "triggerParams" ""
             always_ok parse_ok in
  ∃ tr,
    trace (execute h (initial 0)).2
      = EvGetNodeParameter "resource" 0 :: EvGetNodeParameter "operation" 0
        :: tr
    ∧ Forall (λ e, match e with
                   | EvGetNodeParameter name j =>
                       (j < 2)%nat
                       ∧ shown_for "job" "triggerParams" name = true
                   | EvRequest _ => False
                   | _ => True
                   end) tr.
Proof.
  intros h.
  apply (execute_reads_shown h 0 "job" "triggerParams" eq_refl eq_refl).
Defined.

Lemma execute_tolerant_returns_witness :
  let h := sample_host 2 true "http://ci" "job" "copy" ""
             always_fails parse_ok in
  ∃ s', execute h (initial 0)
        = (inr [helpers_returnJsonArray h (returnData (locals s'))], s').
Proof.
  intros h.
  apply (execute_tolerant_returns h 0 "job" "copy" eq_refl eq_refl eq_refl).
Defined.

Lemma sample_host_no_array items tolerant burl resource operation reason v :
  host_response
    (sample_host items tolerant burl resource operation reason
       (second_call_fails (VString "done")) parse_ok) v →
  isArray v = false.
Proof.
  intros [(c & w & w' & H)|(x & H)]; simpl in H.
  - unfold second_call_fails in H.
    destruct w as [|[|w]]; inversion H; reflexivity.
  - inversion H; reflexivity.
Qed.

Lemma execute_one_item_each_witness :
  let h := sample_host 3 true "http://ci" "build" "build:getAll" ""
             (second_call_fails (VString "done")) parse_ok in
  length (returnData (locals (execute h (initial 0)).2)) = 3.
Proof.
  intros h.
  apply (execute_one_item_each h 0 [returnData (locals (execute h (initial 0)).2)]
           (execute h (initial 0)).2).
  - apply sample_host_no_array.
  - vm_compute. reflexivity.
Defined.

Lemma trigger_request_witness :
  let h := sample_host 1 false "http://ci" "job" "trigger" ""
             always_ok parse_ok in
  trace (item_body h "job" "trigger" 0 (initial 0)).2
    = [EvGetCredentials "JenkinsApi";
       EvGetNodeParameter "token" 0; EvGetNodeParameter "job" 0;
       EvApiRequest
         (mkCall "get" "http://ci/job/nightly/build?token=s3cr3t"
            VUndefined VUndefined VUndefined)].
Proof.
  intros h.
  apply (trigger_request h 0 (initial 0)
           (mkCredentials "admin" "11aa" "http://ci") "s3cr3t" "nightly"
           eq_refl eq_refl eq_refl).
Defined.

Lemma trigger_without_token_witness :
  let h := without_parameter "token"
             (sample_host 1 false "http://ci" "job" "trigger" ""
                always_ok parse_ok) in
  item_body h "job" "trigger" 0 (initial 0) =
    (inl (mkError "Could not get parameter token"),
     mkStore 0 [EvGetCredentials "JenkinsApi"; EvGetNodeParameter "token" 0]
       (mkLocals [] VUndefined)).
Proof.
  intros h.
  apply (trigger_without_token h 0 (initial 0)
           (mkCredentials "admin" "11aa" "http://ci")
           (mkError "Could not get parameter token") eq_refl eq_refl).
Defined.

Lemma copy_request_witness :
  let h := sample_host 1 false "http://ci" "job" "copy" ""
             always_ok parse_ok in
  ∃ q,
    trace (item_body h "job" "copy" 0 (initial 0)).2
      = [EvGetCredentials "JenkinsApi";
         EvGetNodeParameter "job" 0; EvGetNodeParameter "newJob" 0;
         EvApiRequest
           (mkCall "post" "http://ci/createItem" (VObject q)
              VUndefined VUndefined)]
    ∧ q !! "name" = Some (VString "nightly-copy")
    ∧ q !! "mode" = Some (VString "copy")
    ∧ q !! "from" = Some (VString "nightly")
    ∧ dom q = {[ "name"; "mode"; "from" ]}
    ∧ responseData (locals (item_body h "job" "copy" 0 (initial 0)).2)
      = VString "ok".
Proof.
  intros h.
  destruct (copy_request h 0 (initial 0)
              (mkCredentials "admin" "11aa" "http://ci") "nightly"
              "nightly-copy" eq_refl eq_refl eq_refl)
    as (q & T & N & M & F & D & _ & Ok).
  exists q.
  split; [exact T | split; [exact N | split; [exact M | split; [exact F |
    split; [exact D |]]]]].
  exact (proj1 (proj2 (Ok (VString "ok") 1 eq_refl))).
Defined.

Lemma create_request_witness :
  let h := sample_host 1 false "http://ci" "job" "create" ""
             always_fails parse_ok in
  trace (item_body h "job" "create" 0 (initial 0)).2
    = [EvGetCredentials "JenkinsApi";
       EvGetNodeParameter "newJob" 0; EvGetNodeParameter "xml" 0;
       EvApiRequest
         (mkCall "post" "http://ci/createItem"
            (VObject {[ "name" := VString "nightly-copy" ]})
            (VObject {[ "content-type" := VString "application/xml" ]})
            (VString "<project/>"))]
  ∧ (item_body h "job" "create" 0 (initial 0)).1
    = inl (mkError "connect ECONNREFUSED").
Proof.
  intros h.
  destruct (create_request h 0 (initial 0)
              (mkCredentials "admin" "11aa" "http://ci") "nightly-copy"
              "<project/>" eq_refl eq_refl eq_refl) as (T & Err & _).
  split; [exact T |].
  exact (proj1 (Err (mkError "connect ECONNREFUSED") 1 eq_refl)).
Defined.

Lemma getAll_query_depth_witness :
  let nan := mkFilters (Some NaN) None None None in
  let h := sample_host_of sample_params nan 1 false "http://ci" "build"
             "build:getAll" "" always_ok parse_ok in
  ∃ q,
    api_calls (trace (item_body h "build" "build:getAll" 0 (initial 0)).2)
      = [mkCall "get" "http://ci/api/xml" (VObject q) VUndefined VUndefined]
    ∧ q !! "depth" = Some (VNumber (Int 1))
    ∧ q !! "tree" = Some VUndefined
    ∧ parse_calls
        (trace (item_body h "build" "build:getAll" 0 (initial 0)).2)
      = [(VString "ok", false)].
Proof.
  intros nan h.
  destruct (getAll_query_depth h 0 (initial 0)
              (mkCredentials "admin" "11aa" "http://ci") nan
              eq_refl eq_refl)
    as (q & d & E & _ & T & _ & _ & D & _ & _ & Z0 & _ & _ & Ok).
  exists q. rewrite (Z0 NaN eq_refl eq_refl) in D.
  split; [exact E | split; [exact D | split; [exact T |]]].
  exact (proj2 (Ok (VString "ok") 1 eq_refl)).
Defined.

Lemma getAll_transport_error_witness :
  let h := sample_host 1 false "http://ci" "build" "build:getAll" ""
             always_fails parse_ok in
  (item_body h "build" "build:getAll" 0 (initial 0)).1
    = inl (mkError "connect ECONNREFUSED")
  ∧ locals (item_body h "build" "build:getAll" 0 (initial 0)).2
    = mkLocals [] VUndefined
  ∧ parse_calls (trace (item_body h "build" "build:getAll" 0 (initial 0)).2)
    = [].
Proof.
  intros h.
  apply (getAll_transport_error h 0 (initial 0)
           (mkCredentials "admin" "11aa" "http://ci") sample_filters
           (mkError "connect ECONNREFUSED") 1 eq_refl eq_refl eq_refl).
Defined.

Lemma execute_no_items_witness :
  let h := sample_host 0 false "http://ci" "job" "trigger" ""
             always_ok parse_ok in
  execute h (initial 0) =
    (inr [[]],
     mkStore 0
       [EvGetNodeParameter "resource" 0; EvGetNodeParameter "operation" 0]
       (mkLocals [] VUndefined)).
Proof.
  intros h.
  apply (execute_no_items h 0 "job" "trigger" eq_refl eq_refl eq_refl).
Defined.

Lemma execute_unresolved_dispatch_witness :
  let tolerant := sample_host 2 true "http://ci" "job" "trigger" ""
                    always_ok parse_ok in
  (execute (without_parameter "resource" tolerant) (initial 0)).1
    = inl (mkError "Could not get parameter resource")
  ∧ (execute (without_parameter "operation" tolerant) (initial 0)).1
    = inl (mkError "Could not get parameter operation").
Proof.
  intros tolerant. split.
  - rewrite (proj1 (execute_unresolved_dispatch
                      (without_parameter "resource" tolerant) 0
                      (mkError "Could not get parameter resource")) eq_refl).
    reflexivity.
  - rewrite (proj2 (execute_unresolved_dispatch
                      (without_parameter "operation" tolerant) 0
                      (mkError "Could not get parameter operation"))
               "job" eq_refl eq_refl).
    reflexivity.
Defined.

Lemma execute_without_credentials_witness :
  let e := mkError "Node does not have any credentials set!" in
  let on := without_credentials
              (sample_host 2 true "http://ci" "job" "trigger" ""
                 always_ok parse_ok) in
  let off := without_credentials
               (sample_host 2 false "http://ci" "job" "trigger" ""
                  always_ok parse_ok) in
  (execute on (initial 0)).1 = inr [[error_item e; error_item e]]
  ∧ (execute off (initial 0)).1 = inl e.
Proof.
  intros e on off. split.
  - rewrite (proj1 (execute_without_credentials on 0 "job" "trigger" e
                      eq_refl eq_refl eq_refl) eq_refl).
    reflexivity.
  - rewrite (proj2 (execute_without_credentials off 0 "job" "trigger" e
                      eq_refl eq_refl eq_refl) eq_refl
               ltac:(discriminate)).
    reflexivity.
Defined.

Lemma failed_item_tolerated_witness :
  let h := sample_host 1 true "http://ci" "job" "trigger" ""
             always_fails parse_ok in
  (try_catch (item_body h "job" "trigger" 0) (on_error h) (initial 0)).1
    = inr tt
  ∧ locals (try_catch (item_body h "job" "trigger" 0) (on_error h)
              (initial 0)).2
    = mkLocals [error_item (mkError "connect ECONNREFUSED")] VUndefined.
Proof.
  intros h.
  rewrite (proj1 (failed_item_tolerated h "job" "trigger" 0 (initial 0)
                    (item_body h "job" "trigger" 0 (initial 0)).2
                    (mkError "connect ECONNREFUSED") eq_refl
                    ltac:(vm_compute; reflexivity))).
  split; reflexivity.
Defined.

Lemma trigger_requests_in_order_witness :
  let h := sample_host 3 true "http://ci" "job" "trigger" ""
             (second_call_fails (VString "done")) parse_ok in
  api_calls (trace (execute h (initial 0)).2)
    = [trigger_call "http://ci" "nightly" "s3cr3t";
       trigger_call "http://ci" "nightly" "s3cr3t";
       trigger_call "http://ci" "nightly" "s3cr3t"]
  ∧ (world (execute h (initial 0)).2,
     returnData (locals (execute h (initial 0)).2))
    = foldl (request_outcome h) (0, [])
        [trigger_call "http://ci" "nightly" "s3cr3t";
         trigger_call "http://ci" "nightly" "s3cr3t";
         trigger_call "http://ci" "nightly" "s3cr3t"].
Proof.
  intros h.
  apply (trigger_requests_in_order h 0
           (mkCredentials "admin" "11aa" "http://ci")
           (λ _, "s3cr3t") (λ _, "nightly")
           eq_refl eq_refl eq_refl (λ _, eq_refl) (λ _, eq_refl)
           (or_introl eq_refl)).
Defined.

